(** * gcp-deploy-cli: the deployment pipeline, its naming rules, the
      environment loader and the local state store, embedded in Rocq.

    The development follows the sources:
    - [src/commands/deploy.js]  (sanitizeBranchName, getCurrentBranch,
      parseEnvFile, deployCommand),
    - [src/lib/config.js]       (the three persisted documents),
    - [src/lib/gcp-client.js]   (pre-flight probes, getService,
      deleteService, streamLogs),
    - [src/commands/list.js], [src/commands/logs.js],
      [src/commands/remove.js] and [src/index.js].

    A JavaScript string is a sequence of UTF-16 code units; it is modelled
    as [list N].  Regular expressions without the [u] flag work on code
    units, and so do the functions below.

    Everything outside the process (child processes, the Cloud Run and
    Cloud Logging clients, the clock, nanoid, the prompt) is gathered in a
    record [World] that the handlers consult; the handlers themselves are
    written in a small state-and-exception monad over the disk, the list
    of calls made and the console. *)

From stdpp Require Import base numbers option list gmap strings.

Open Scope N_scope.

(** ** JavaScript strings *)

Abbreviation jsstring := (list N).

(** The code units of an ASCII literal. *)
Definition js (s : string) : jsstring :=
  map Ascii.N_of_ascii (String.list_ascii_of_string s).
Arguments js s%_string_scope : simpl never.

Module Chars.

Definition hyphen : N := 45.
Definition equals : N := 61.
Definition hash : N := 35.
Definition dquote : N := 34.
Definition squote : N := 39.
Definition newline : N := 10.

Definition isHyphen (c : N) : bool := c =? hyphen.
Definition isDigit (c : N) : bool := (48 <=? c) && (c <=? 57).
Definition isLower (c : N) : bool := (97 <=? c) && (c <=? 122).
Definition isUpper (c : N) : bool := (65 <=? c) && (c <=? 90).
Definition isAscii (c : N) : bool := c <? 128.

(** The class [[a-z0-9]]. *)
Definition isAlnum (c : N) : bool := isLower c || isDigit c.

(** The class [[a-z0-9-]]. *)
Definition isNameChar (c : N) : bool := isAlnum c || isHyphen c.

(** ASCII lower-casing of one code unit. *)
Definition lowerAscii (c : N) : N := if isUpper c then c + 32 else c.

(** ECMAScript WhiteSpace and LineTerminator code units, the ones
    [String.prototype.trim] removes. *)
Definition isWhiteSpace (c : N) : bool :=
  ((9 <=? c) && (c <=? 13)) || (c =? 32) || (c =? 160) || (c =? 5760)
  || ((8192 <=? c) && (c <=? 8202)) || (c =? 8232) || (c =? 8233)
  || (c =? 8239) || (c =? 8287) || (c =? 12288) || (c =? 65279).

End Chars.
Import Chars.

(** [String.prototype.toLowerCase] is a built-in that follows the Unicode
    case mappings.  The development does not fix those tables: it works
    with any function that agrees with ASCII lower-casing on ASCII-only
    strings, which the built-in does. *)
Record Lowercasing := {
  toLowerCase : jsstring -> jsstring;
  toLowerCase_ascii :
    forall s, forallb isAscii s = true -> toLowerCase s = map lowerAscii s
}.

(** The instance used to run examples: code units outside ASCII are kept. *)
Definition asciiLowercasing : Lowercasing :=
  {| toLowerCase := map lowerAscii;
     toLowerCase_ascii := fun s _ => eq_refl |}.

(** ** String methods used by the sources *)

Module JSString.

(** Removal of the longest prefix whose code units satisfy [p]. *)
Fixpoint stripStart (p : N -> bool) (s : jsstring) : jsstring :=
  match s with
  | [] => []
  | c :: rest => if p c then stripStart p rest else s
  end.

(** Removal of the longest suffix whose code units satisfy [p]. *)
Fixpoint stripEnd (p : N -> bool) (s : jsstring) : jsstring :=
  match s with
  | [] => []
  | c :: rest =>
      match stripEnd p rest with
      | [] => if p c then [] else [c]
      | r => c :: r
      end
  end.

(** [s.trim()] *)
Definition trim (s : jsstring) : jsstring :=
  stripEnd isWhiteSpace (stripStart isWhiteSpace s).

(** [s.split(sep)] for a separator of one code unit: the result is never
    empty, and [''.split(sep)] is [['']]. *)
Fixpoint split (sep : N) (s : jsstring) : list jsstring :=
  match s with
  | [] => [[]]
  | c :: rest =>
      if c =? sep then [] :: split sep rest
      else match split sep rest with
           | w :: ws => (c :: w) :: ws
           | [] => [[c]]
           end
  end.

(** [parts.join(sep)] *)
Fixpoint join (sep : N) (parts : list jsstring) : jsstring :=
  match parts with
  | [] => []
  | p :: ps =>
      match ps with
      | [] => p
      | _ :: _ => p ++ sep :: join sep ps
      end
  end.

(** [s.startsWith(c)] and [s.endsWith(c)] for a one-unit argument. *)
Definition startsWith (c : N) (s : jsstring) : bool :=
  match s with
  | d :: _ => d =? c
  | [] => false
  end.

Definition endsWith (c : N) (s : jsstring) : bool :=
  match last s with
  | Some d => d =? c
  | None => false
  end.

(** [s.slice(1, -1)]: from index 1 up to, not including, the last index;
    empty when the string has at most two code units. *)
Definition slice_1_m1 (s : jsstring) : jsstring :=
  take (length s - 2) (drop 1 s).

Fixpoint isPrefixOf (p s : jsstring) : bool :=
  match p, s with
  | [], _ => true
  | _ :: _, [] => false
  | a :: p', b :: s' => (a =? b) && isPrefixOf p' s'
  end.

(** [s.includes(needle)] *)
Fixpoint includes (needle s : jsstring) : bool :=
  isPrefixOf needle s ||
  match s with
  | [] => false
  | _ :: rest => includes needle rest
  end.

(** Truthiness of a string: [''] is falsy. *)
Definition truthy (s : jsstring) : bool :=
  match s with
  | [] => false
  | _ :: _ => true
  end.

End JSString.
Import JSString.

(** ** Naming (deploy.js) *)

Module Naming.

(** [.replace(/[^a-z0-9-]/g, '-')] *)
Definition replaceDisallowed (s : jsstring) : jsstring :=
  map (fun c => if isNameChar c then c else hyphen) s.

(** [.replace(/-+/g, '-')]: every maximal run of hyphens becomes one
    hyphen, that is, a hyphen followed by a hyphen is dropped. *)
Fixpoint collapseHyphens (s : jsstring) : jsstring :=
  match s with
  | [] => []
  | c :: rest =>
      if isHyphen c && startsWith hyphen rest
      then collapseHyphens rest
      else c :: collapseHyphens rest
  end.

(** [.replace(/-+$/g, '')] *)
Definition trimTrailingHyphens (s : jsstring) : jsstring :=
  stripEnd isHyphen s.

(** [.replace(/^-+|-+$/g, '')]: the first alternative matches the leading
    run only, the second the run that reaches the end of the string. *)
Definition trimHyphens (s : jsstring) : jsstring :=
  stripEnd isHyphen (stripStart isHyphen s).

(** [.substring(0, 30)] *)
Definition substring_0_30 (s : jsstring) : jsstring := take 30 s.

Definition sanitizeBranchName (L : Lowercasing) (branch : jsstring) : jsstring :=
  trimTrailingHyphens
    (substring_0_30
       (trimHyphens
          (collapseHyphens
             (replaceDisallowed (toLowerCase L branch))))).

(** The template [`${config.serviceName}-${sanitizedBranch}-${uniqueId}`]
    followed by the two replacements of deployCommand.  [uniqueId] stands
    for [nanoid(8).toLowerCase()]. *)
Definition previewServiceName (serviceName sanitizedBranch uniqueId : jsstring)
  : jsstring :=
  trimHyphens
    (collapseHyphens
       (serviceName ++ [hyphen] ++ sanitizedBranch ++ [hyphen] ++ uniqueId)).

Inductive DeploymentType := Production | Preview.

Definition main : jsstring := js "main".

(** The naming part of deployCommand.  [configured] is the serviceName
    read from gcp-deploy.json; the first statement is
    [config.serviceName = config.serviceName.toLowerCase()].
    [isProduction] and [isPreview] are the two flags, [branchName] is
    [options.branch || getCurrentBranch()]. *)
Definition resolveService (L : Lowercasing) (configured : jsstring)
    (isProduction isPreview : bool) (branchName uniqueId : jsstring)
  : jsstring * DeploymentType :=
  let serviceName := toLowerCase L configured in
  if isProduction then (serviceName, Production)
  else if isPreview || negb (bool_decide (branchName = main)) then
    (previewServiceName serviceName (sanitizeBranchName L branchName) uniqueId,
     Preview)
  else (serviceName, Production).

(** [^[a-z0-9]([a-z0-9-]*[a-z0-9])?$] *)
Definition matchesServiceNamePattern (s : jsstring) : bool :=
  match s with
  | [] => false
  | c :: rest =>
      isAlnum c &&
      match reverse rest with
      | [] => true
      | l :: middle => isAlnum l && forallb isNameChar middle
      end
  end.

Fixpoint noConsecutiveHyphens (s : jsstring) : bool :=
  match s with
  | [] => true
  | c :: rest =>
      negb (isHyphen c && startsWith hyphen rest) && noConsecutiveHyphens rest
  end.

(** The alphabet the init prompt accepts for a service name
    ([/^[a-z0-9-]+$/]). *)
Definition overNameAlphabet (s : jsstring) : bool := forallb isNameChar s.

(** An 8-character lowercase alphanumeric string. *)
Definition isSuffix8 (s : jsstring) : bool :=
  bool_decide (length s = 8%nat) && forallb isAlnum s.

(** What [nanoid(8)] returns (nanoid 3.3.11, a dependency): eight
    characters of its alphabet, [A-Za-z0-9_-]. *)
Definition isNanoidChar (c : N) : bool :=
  isAlnum c || isUpper c || (c =? 95) || isHyphen c.

Definition isNanoid8 (s : jsstring) : bool :=
  bool_decide (length s = 8%nat) && forallb isNanoidChar s.

End Naming.
Import Naming.

(** ** Environment loader (parseEnvFile in deploy.js) *)

Module EnvLoader.

(** What [fs.existsSync] and [fs.readFileSync] find at the path. *)
Inductive EnvFile :=
| NoEnvFile
| UnreadableEnvFile (message : jsstring)
| EnvFileContent (envContent : jsstring).

Definition proto : jsstring := js "__proto__".

(** [envVars[key] = value] on an object created by [{}].  The one key
    that does not create an own property is [__proto__]: the assignment
    reaches the accessor inherited from Object.prototype, which ignores a
    value that is a string. *)
Definition setProperty (key value : jsstring) (envVars : gmap jsstring jsstring)
  : gmap jsstring jsstring :=
  if bool_decide (key = proto) then envVars else <[key := value]> envVars.

(** The quote test and [value.slice(1, -1)]. *)
Definition stripQuotes (value : jsstring) : jsstring :=
  if (startsWith dquote value && endsWith dquote value)
     || (startsWith squote value && endsWith squote value)
  then slice_1_m1 value
  else value.

(** The body of the [forEach] callback. *)
Definition processLine (envVars : gmap jsstring jsstring) (line : jsstring)
  : gmap jsstring jsstring :=
  let trimmed := trim line in
  if truthy trimmed && negb (startsWith hash trimmed) then
    match split equals trimmed with
    | key :: valueParts =>
        if truthy key then
          let value := stripQuotes (trim (join equals valueParts)) in
          setProperty (trim key) value envVars
        else envVars
    | [] => envVars
    end
  else envVars.

Definition parseEnvContent (envContent : jsstring) : gmap jsstring jsstring :=
  foldl processLine ∅ (split newline envContent).

(** The mapping returned, and the text of the warning when there is one. *)
Definition parseEnvFile (f : EnvFile)
  : gmap jsstring jsstring * option jsstring :=
  match f with
  | NoEnvFile => (∅, None)
  | UnreadableEnvFile message =>
      (∅, Some (js "Warning: Could not parse .env file: " ++ message))
  | EnvFileContent envContent => (parseEnvContent envContent, None)
  end.

(** *** The loader as the specification words it *)

(** The text before the first [sep] and, when there is one, the text
    after it. *)
Fixpoint cutAtFirst (sep : N) (s : jsstring) : jsstring * option jsstring :=
  match s with
  | [] => ([], None)
  | c :: rest =>
      if c =? sep then ([], Some rest)
      else let '(k, v) := cutAtFirst sep rest in (c :: k, v)
  end.

Definition isQuote (c : N) : bool := (c =? dquote) || (c =? squote).

(** A value wrapped in one matching pair of straight quotes loses the
    pair. *)
Definition unwrapQuotes (v : jsstring) : jsstring :=
  match v with
  | q :: rest =>
      match reverse rest with
      | q' :: inner => if isQuote q && (q =? q') then reverse inner else v
      | [] => v
      end
  | [] => v
  end.

(** The binding a line defines, if any: none for a line that is empty
    after trimming or starts with [#]; otherwise the trimmed key before
    the first [=] and the trimmed, unwrapped value after it (empty when
    the line has no [=]).  [skipEmptyKey] adds the guard [if (key)] of the
    source. *)
Definition lineBinding (skipEmptyKey : bool) (line : jsstring)
  : option (jsstring * jsstring) :=
  let t := trim line in
  match t with
  | [] => None
  | c :: _ =>
      if c =? hash then None
      else
        let '(k, v) := cutAtFirst equals t in
        if skipEmptyKey && negb (truthy k) then None
        else Some (trim k, unwrapQuotes (trim (default [] v)))
  end.

Definition applyBinding (m : gmap jsstring jsstring)
    (b : option (jsstring * jsstring)) : gmap jsstring jsstring :=
  match b with
  | Some (k, v) => <[k := v]> m
  | None => m
  end.

(** Mapping semantics: bindings applied in line order, later ones
    replacing earlier ones. *)
Definition specParse (skipEmptyKey : bool) (envContent : jsstring)
  : gmap jsstring jsstring :=
  foldl (fun m line => applyBinding m (lineBinding skipEmptyKey line))
        ∅ (split newline envContent).

(** Lines whose treatment by the source is incidental: the key
    [__proto__], and a value that consists of one quote character. *)
Definition incidental (line : jsstring) : bool :=
  match lineBinding true line with
  | Some (k, _) =>
      bool_decide (k = proto)
      || match snd (cutAtFirst equals (trim line)) with
         | Some v => match trim v with
                     | [q] => isQuote q
                     | _ => false
                     end
         | None => false
         end
  | None => false
  end.

Definition regular (line : jsstring) : bool := negb (incidental line).

End EnvLoader.

Import EnvLoader.

(** ** State store (lib/config.js) *)

(** What is found at the path of a persisted JSON document: no file, a
    file whose text [JSON.parse] rejects (with the message of the
    SyntaxError), or a file that parses to the document [doc].  For
    gcp-deploy.json the document is any value [JSON.parse] returns (see
    [Document]); for the two other files a value of another shape is
    outside the model. *)
Inductive file (A : Type) :=
| Absent
| Malformed (syntaxError : jsstring)
| Stored (doc : A).
Arguments Absent {A}.
Arguments Malformed {A} syntaxError.
Arguments Stored {A} doc.

(** A property of a parsed JSON document, as far as the handlers tell
    values apart: a string; [undefined], the property is missing; [null];
    or any other value (a number, a boolean, an array, an object), with
    what a template literal makes of it and whether it is truthy. *)
Inductive JsValue :=
| Str (s : jsstring)
| Undefined
| Null
| Other (shown : jsstring) (isTruthy : bool).

(** [`${v}`] *)
Definition render (v : JsValue) : jsstring :=
  match v with
  | Str s => s
  | Undefined => js "undefined"
  | Null => js "null"
  | Other shown _ => shown
  end.

(** [!!v] *)
Definition truthyValue (v : JsValue) : bool :=
  match v with
  | Str s => truthy s
  | Undefined | Null => false
  | Other _ isTruthy => isTruthy
  end.

(** [name === v] for a string [name]. *)
Definition equalsString (name : jsstring) (v : JsValue) : bool :=
  match v with
  | Str s => bool_decide (name = s)
  | _ => false
  end.

Definition isString (v : JsValue) : bool :=
  match v with
  | Str _ => true
  | _ => false
  end.

(** The five properties the tool reads from or writes to the object in
    gcp-deploy.json. *)
Module Config.
Record t := {
  projectId : JsValue;
  region : JsValue;
  serviceName : JsValue;
  artifactRegistry : JsValue;
  version : JsValue
}.
End Config.

(** What [JSON.parse] makes of gcp-deploy.json: [null], or a value whose
    properties can be read.  A number, a boolean, a string or an array has
    none of the five properties: it is [Properties] with every field
    [Undefined]. *)
Inductive Document :=
| NullDocument
| Properties (config : Config.t).

Module Deployment.
Record t := {
  serviceName : jsstring;
  type : DeploymentType;
  branch : jsstring;
  url : jsstring;
  image : jsstring;
  region : JsValue;       (* [config.region], as it is *)
  timestamp : jsstring
}.

(** [{ ...deployment, timestamp }] *)
Definition withTimestamp (d : t) (now : jsstring) : t :=
  {| serviceName := serviceName d; type := type d; branch := branch d;
     url := url d; image := image d; region := region d; timestamp := now |}.
End Deployment.

Record GlobalConfig := { lastUsedProject : option jsstring }.

Record History := { deployments : list Deployment.t }.

(** The part of the file system the tool touches.  [globalConfig] is
    [None] while the directory [~/.gcp-deploy] does not exist.
    [writeFailure] is [None] when [fs.writeFileSync] and [fs.mkdirSync]
    succeed, and the message of the error they throw otherwise. *)
Record Disk := {
  globalConfig : option (file GlobalConfig);
  projectConfig : file Document;
  history : file History;
  writeFailure : option jsstring
}.

Definition writable (d : Disk) : bool :=
  match writeFailure d with
  | None => true
  | Some _ => false
  end.

(** The two properties of a caught error the handlers read.  [stderr] is
    empty when the property is undefined or the empty string: both are
    falsy. *)
Record JsError := { message : jsstring; stderr : jsstring }.

(** [new Error(text)] *)
Definition newError (text : jsstring) : JsError :=
  {| message := text; stderr := [] |}.

(** A service descriptor as list.js and remove.js read it:
    [metadata?.name || ''] and the URL. *)
Record Service := { metadataName : jsstring; statusUrl : jsstring }.

(** One row of the listing. *)
Record Row := {
  rowServiceName : jsstring;
  rowUrl : jsstring;
  rowType : DeploymentType;
  rowBranch : jsstring
}.

Inductive Message :=
| Log (text : jsstring)
| Warn (text : jsstring)
| Error (text : jsstring)
| Table (production preview : list Row).

(** Calls that leave the process. *)
Inductive Command :=
| GitRevParse
| DockerInfo
| GcloudAuthList
| GcloudAuthListActive        (* the query of init.js, with the filter and the format *)
| GcloudConfigureDocker (region : jsstring)
| DockerBuild (imageName : jsstring)
| DockerTag (sourceName targetName : jsstring)
| DockerPush (imageName : jsstring)
| GcloudRunDeploy (serviceName imageTag region projectId : jsstring)
    (envVars : gmap jsstring jsstring)
| GcloudRunDescribe (serviceName region projectId : jsstring)
| GcloudRunServicesList (region projectId : jsstring).

Inductive Call :=
| Exec (c : Command)
| Prompt
| RunGetService (name : jsstring)
| RunDeleteService (name : jsstring)
| LogGetEntries (serviceName : jsstring) (follow : bool).

(** The state a command runs in: the disk, the calls made so far and the
    lines written to the console that report a failure, a warning or an
    outcome.  Banners, spinners, colours, leading newlines and the lists
    of hints that follow some messages are left out. *)
Record Proc := {
  disk : Disk;
  calls : list Call;
  console : list Message
}.

(** How the evaluation of a (possibly asynchronous) function ends: it
    returns, it throws, or it awaits a promise that never settles. *)
Inductive Completion (A : Type) :=
| Normal (a : A)
| Thrown (error : JsError)
| Pending.
Arguments Normal {A} a.
Arguments Thrown {A} error.
Arguments Pending {A}.

Definition M (A : Type) : Type := Proc -> Completion A * Proc.

Definition ret {A} (a : A) : M A := fun p => (Normal a, p).

(** [throw new Error(text)] *)
Definition throw {A} (text : jsstring) : M A :=
  fun p => (Thrown (newError text), p).

Definition rethrow {A} (error : JsError) : M A := fun p => (Thrown error, p).

Definition bind {A B} (m : M A) (k : A -> M B) : M B :=
  fun p =>
    match m p with
    | (Normal a, p') => k a p'
    | (Thrown e, p') => (Thrown e, p')
    | (Pending, p') => (Pending, p')
    end.

(** [try { m } catch (error) { handler error }] *)
Definition tryCatch {A} (m : M A) (handler : JsError -> M A) : M A :=
  fun p =>
    match m p with
    | (Thrown e, p') => handler e p'
    | r => r
    end.

Definition is_Some_bool {A} (o : option A) : bool :=
  match o with
  | Some _ => true
  | None => false
  end.

Notation "'let*' x ':=' m 'in' k" := (bind m (fun x => k))
  (at level 10, x pattern, m at level 100, k at level 200).
Notation "m ';;' k" := (bind m (fun _ => k))
  (at level 100, k at level 200, right associativity).

Definition getDisk : M Disk := fun p => (Normal (disk p), p).

Definition putDisk (d : Disk) : M unit :=
  fun p => (Normal tt, {| disk := d; calls := calls p; console := console p |}).

Definition say (m : Message) : M unit :=
  fun p => (Normal tt,
            {| disk := disk p; calls := calls p; console := console p ++ [m] |}).

Definition record (c : Call) : M unit :=
  fun p => (Normal tt,
            {| disk := disk p; calls := calls p ++ [c]; console := console p |}).

Module Store.

Definition emptyGlobal : GlobalConfig := {| lastUsedProject := None |}.
Definition emptyHistory : History := {| deployments := [] |}.

Definition setGlobalConfig (g : option (file GlobalConfig)) (d : Disk) : Disk :=
  {| globalConfig := g; projectConfig := projectConfig d;
     history := history d; writeFailure := writeFailure d |}.

Definition setHistory (h : file History) (d : Disk) : Disk :=
  {| globalConfig := globalConfig d; projectConfig := projectConfig d;
     history := h; writeFailure := writeFailure d |}.

Definition ensureGlobalConfigDir : M unit :=
  let* d := getDisk in
  match globalConfig d with
  | Some _ => ret tt
  | None =>
      match writeFailure d with
      | None => putDisk (setGlobalConfig (Some Absent) d)
      | Some failure => throw failure
      end
  end.

Definition readGlobalConfig : M GlobalConfig :=
  ensureGlobalConfigDir ;;
  let* d := getDisk in
  match globalConfig d with
  | None | Some Absent => ret emptyGlobal
  | Some (Stored g) => ret g
  | Some (Malformed e) =>
      say (Error (js "Error reading global config: " ++ e)) ;;
      ret emptyGlobal
  end.

(** [null], returned when the file is missing, is [NullDocument]. *)
Definition readProjectConfig : M Document :=
  let* d := getDisk in
  match projectConfig d with
  | Absent => ret NullDocument
  | Stored doc => ret doc
  | Malformed e => throw (js "Error reading project config: " ++ e)
  end.

Definition isProjectInitialized : M bool :=
  let* d := getDisk in
  match projectConfig d with
  | Absent => ret false
  | _ => ret true
  end.

Definition readDeploymentHistory : M History :=
  let* d := getDisk in
  match history d with
  | Absent => ret emptyHistory
  | Stored h => ret h
  | Malformed e =>
      say (Error (js "Error reading deployment history: " ++ e)) ;;
      ret emptyHistory
  end.

Definition writeDeploymentHistory (h : History) : M bool :=
  let* d := getDisk in
  match writeFailure d with
  | None => putDisk (setHistory (Stored h) d) ;; ret true
  | Some failure =>
      say (Error (js "Error writing deployment history: " ++ failure)) ;;
      ret false
  end.

(** [now] is [new Date().toISOString()]. *)
Definition addDeployment (deployment : Deployment.t) (now : jsstring) : M unit :=
  let* h := readDeploymentHistory in
  writeDeploymentHistory
    {| deployments := deployments h ++ [Deployment.withTimestamp deployment now] |} ;;
  ret tt.

Definition removeDeployment (serviceName : jsstring) : M unit :=
  let* h := readDeploymentHistory in
  writeDeploymentHistory
    {| deployments :=
         filter (fun d => Deployment.serviceName d ≠ serviceName) (deployments h) |} ;;
  ret tt.

Definition getDeployment (serviceName : jsstring) : M (option Deployment.t) :=
  let* h := readDeploymentHistory in
  ret (find (fun d => bool_decide (Deployment.serviceName d = serviceName))
            (deployments h)).

(** The two mutations of the history, as a command language. *)
Inductive HistoryOp :=
| AddRecord (deployment : Deployment.t) (now : jsstring)
| RemoveRecord (serviceName : jsstring).

Definition runOp (op : HistoryOp) : M unit :=
  match op with
  | AddRecord deployment now => addDeployment deployment now
  | RemoveRecord serviceName => removeDeployment serviceName
  end.

Fixpoint runOps (ops : list HistoryOp) : M unit :=
  match ops with
  | [] => ret tt
  | op :: rest => runOp op ;; runOps rest
  end.

(** The history a reader sees in state [p]. *)
Definition currentHistory (p : Proc) : list Deployment.t :=
  match fst (readDeploymentHistory p) with
  | Normal h => deployments h
  | _ => []
  end.

Definition names (h : list Deployment.t) : list jsstring :=
  map Deployment.serviceName h.

(** A project directory with no history file yet. *)
Definition freshProc (cfg : file Document) (failure : option jsstring) : Proc :=
  {| disk := {| globalConfig := None; projectConfig := cfg;
                history := Absent; writeFailure := failure |};
     calls := []; console := [] |}.

(** No [AddRecord] of [ops] names a service that the history already
    holds when the operation runs. *)
Fixpoint addsAreFresh (ops : list HistoryOp) (p : Proc) : bool :=
  match ops with
  | [] => true
  | op :: rest =>
      match op with
      | AddRecord deployment _ =>
          bool_decide (Deployment.serviceName deployment ∉ names (currentHistory p))
      | RemoveRecord _ => true
      end
      && addsAreFresh rest (runOp op p).2
  end.

End Store.
Import Store.

(** ** The world outside the process *)

(** [execSync(command)] returns the standard output of the child process
    or throws an error that carries [message] and [stderr]. *)
Inductive ExecResult :=
| Exited (stdout : jsstring)
| Failed (error : JsError).

(** An error of the Cloud Run or Cloud Logging client: the gRPC status
    [code] ([5] is NOT_FOUND) and the message. *)
Record ApiError := { code : N; apiMessage : jsstring }.

Record LogEntry := {
  insertId : N;
  entryTimestamp : N;   (* milliseconds since the epoch *)
  entryText : jsstring
}.

Record World := {
  execSync : Command -> ExecResult;
  envFile : EnvFile;                    (* the file .env of the project *)
  nanoid8 : jsstring;                   (* nanoid(8) *)
  dateNow : jsstring;                   (* Date.now(), as the template prints it *)
  isoNow : jsstring;                    (* new Date().toISOString() *)
  confirmed : bool;                     (* the answer to the confirmation prompt *)
  servicesOfJson : jsstring -> JsError + list Service;
                                        (* JSON.parse of the listing *)
  apiGetService : jsstring -> ApiError + Service;
  apiDeleteService : jsstring -> ApiError + unit;
  apiGetEntries : jsstring -> ApiError + list LogEntry
                                        (* newest first, as 'timestamp desc' asks *)
}.

(** ** Log following (GCPClient.streamLogs with [follow = true]) *)

Module LogStream.

(** The delay given to [setInterval], in milliseconds. *)
Definition pollInterval : N := 2000.

(** The request of one poll against a log that holds [log] in ascending
    order of timestamp: filter [timestamp >= lastTimestamp],
    [orderBy: 'timestamp asc'].  The option [pageSize: 100] sets the size
    of a page of the request; the client gathers the pages. *)
Definition getEntriesSince (lastTimestamp : N) (log : list LogEntry)
  : list LogEntry :=
  filter (fun e => lastTimestamp <= entryTimestamp e) log.

Record Poller := {
  lastTimestamp : N;
  delivered : list LogEntry     (* the calls of the callback, in order *)
}.

(** [let lastTimestamp = new Date()] *)
Definition start (now : N) : Poller :=
  {| lastTimestamp := now; delivered := [] |}.

(** One run of the interval callback.  [response] is [None] when
    [getEntries] rejects: the error is printed and nothing changes. *)
Definition onInterval (response : option (list LogEntry)) (st : Poller) : Poller :=
  match response with
  | None => st
  | Some entries =>
      match last entries with
      | Some e =>
          {| lastTimestamp := entryTimestamp e;
             delivered := delivered st ++ entries |}
      | None => st
      end
  end.

(** The poller run against the successive states of the log, one per
    firing; [None] stands for a firing whose request fails. *)
Fixpoint firings (logs : list (option (list LogEntry))) (st : Poller) : Poller :=
  match logs with
  | [] => st
  | log :: later =>
      firings later
        (onInterval (getEntriesSince (lastTimestamp st) <$> log) st)
  end.

End LogStream.

(** ** Platform gateway and the command handlers *)

Record DeployOptions := {
  production : bool;
  preview : bool;
  branch : option jsstring
}.

Record ListOptions := { listProduction : bool; listPreview : bool }.

Record LogsOptions := { follow : bool; deployment : option jsstring }.

Record RemoveOptions := { yes : bool }.

Definition succeeded (r : ExecResult) : bool :=
  match r with
  | Exited _ => true
  | Failed _ => false
  end.

(** [a || b] on an optional string: [undefined] and [''] are falsy. *)
Definition orElse {A} (a : option jsstring) (b : M A) (k : jsstring -> M A) : M A :=
  match a with
  | Some v => if truthy v then k v else b
  | None => b
  end.

Section Commands.
Context (L : Lowercasing) (W : World).

Definition exec (c : Command) : M ExecResult :=
  record (Exec c) ;; ret (execSync W c).

(** *** gcp-client.js *)

Definition checkDockerRunning : M bool :=
  let* r := exec DockerInfo in ret (succeeded r).

Definition checkGcloudAuth : M bool :=
  let* r := exec GcloudAuthList in ret (succeeded r).

Definition configureDockerAuth (region : jsstring) : M bool :=
  let* r := exec (GcloudConfigureDocker region) in
  match r with
  | Exited _ => ret true
  | Failed e =>
      throw (js "Failed to configure Docker authentication: " ++ message e)
  end.

(** [null] is [None]. *)
Definition getService (serviceName : jsstring) : M (option Service) :=
  record (RunGetService serviceName) ;;
  match apiGetService W serviceName with
  | inr service => ret (Some service)
  | inl error =>
      if code error =? 5 then ret None
      else throw (js "Failed to get service: " ++ apiMessage error)
  end.

Definition deleteService (serviceName : jsstring) : M bool :=
  record (RunDeleteService serviceName) ;;
  match apiDeleteService W serviceName with
  | inr _ => ret true
  | inl error => throw (js "Failed to delete service: " ++ apiMessage error)
  end.

(** [streamLogs]: with [follow] the interval is armed and the cleanup
    function returned at once; the firings are those of [LogStream].
    Without it the entries are fetched once and handed to the callback,
    oldest first. *)
Definition streamLogs (serviceName : jsstring) (callback : LogEntry -> M unit)
    (follow : bool) : M unit :=
  if follow then ret tt
  else
    record (LogGetEntries serviceName false) ;;
    match apiGetEntries W serviceName with
    | inr entries =>
        foldr (fun e k => callback e ;; k) (ret tt) (reverse entries)
    | inl error => throw (js "Failed to stream logs: " ++ apiMessage error)
    end.

(** *** deploy.js *)

Definition getCurrentBranch : M jsstring :=
  let* r := exec GitRevParse in
  match r with
  | Exited out => ret (trim out)
  | Failed _ => ret main
  end.

Definition buildDockerImage (imageName : jsstring) : M bool :=
  let* r := exec (DockerBuild imageName) in
  match r with
  | Exited _ => ret true
  | Failed e => say (Error (message e)) ;; ret false
  end.

Definition pushDockerImage (imageName : jsstring) : M bool :=
  let* r := exec (DockerPush imageName) in
  match r with
  | Exited _ => ret true
  | Failed e => say (Error (message e)) ;; ret false
  end.

Definition tagDockerImage (sourceName targetName : jsstring) : M bool :=
  let* r := exec (DockerTag sourceName targetName) in
  match r with
  | Exited _ => ret true
  | Failed e => say (Error (js "Failed to tag image: " ++ message e)) ;; ret false
  end.

(** [execSync] inside a [try]: a failure is thrown to the handler. *)
Definition execOrThrow (c : Command) : M jsstring :=
  let* r := exec c in
  match r with
  | Exited out => ret out
  | Failed e => rethrow e
  end.

Definition notInitialized : M unit :=
  say (Log (js "Error: Project not initialized.")).

(** The first read of a property of [config] in a handler, [name]: on
    [null] the access throws a TypeError (the text is the one of V8). *)
Definition properties (name : jsstring) (config : Document) : M Config.t :=
  match config with
  | NullDocument =>
      throw (js "Cannot read properties of null (reading '" ++ name ++ js "')")
  | Properties fields => ret fields
  end.

(** [config.serviceName.toLowerCase()] is evaluated only on a string: on
    any other value the call throws a TypeError.  The lower-casing itself
    is the first step of [resolveService]. *)
Definition receiverOfToLowerCase (v : JsValue) : M jsstring :=
  match v with
  | Str s => ret s
  | Undefined =>
      throw (js "Cannot read properties of undefined (reading 'toLowerCase')")
  | Null => throw (js "Cannot read properties of null (reading 'toLowerCase')")
  | Other _ _ => throw (js "config.serviceName.toLowerCase is not a function")
  end.

Definition deployFailed (error : JsError) : M unit :=
  say (Error (js "Error: "
              ++ (if truthy (stderr error) then stderr error else message error))) ;;
  (if includes (js "403") (message error) then
     say (Log (js "Make sure you have the necessary permissions:"))
   else if includes (js "404") (message error) then
     say (Log (js "Make sure the following APIs are enabled:"))
   else ret tt).

Definition deployCommand (options : DeployOptions) : M unit :=
  let* initialized := isProjectInitialized in
  if negb initialized then notInitialized
  else
    let* document := readProjectConfig in
    let* config := properties (js "serviceName") document in
    let* configuredName := receiverOfToLowerCase (Config.serviceName config) in
    let* branchName := orElse (branch options) getCurrentBranch ret in
    let '(serviceName, deploymentType) :=
      resolveService L configuredName
        (production options) (preview options) branchName
        (toLowerCase L (nanoid8 W)) in
    let* docker := checkDockerRunning in
    if negb docker then say (Error (js "Error: Docker is not running."))
    else
      let* auth := checkGcloudAuth in
      if negb auth then
        say (Error (js "Error: gcloud CLI is not authenticated."))
      else
        let* configured :=
          tryCatch (configureDockerAuth (render (Config.region config)))
            (fun error =>
               say (Error (js "Error: " ++ message error)) ;; ret false) in
        if negb configured then ret tt
        else
          let '(envVars, warning) := parseEnvFile (envFile W) in
          (match warning with
           | Some text => say (Warn text)
           | None => ret tt
           end) ;;
          let imageTag :=
            render (Config.artifactRegistry config) ++ js "/" ++ serviceName
            ++ js ":" ++ dateNow W in
          let imageLatest :=
            render (Config.artifactRegistry config) ++ js "/" ++ serviceName
            ++ js ":latest" in
          let* buildSuccess := buildDockerImage imageTag in
          if negb buildSuccess then say (Log (js "Deployment failed."))
          else
            tagDockerImage imageTag imageLatest ;;
            let* pushSuccess := pushDockerImage imageTag in
            if negb pushSuccess then say (Log (js "Deployment failed."))
            else
              pushDockerImage imageLatest ;;
              tryCatch
                (execOrThrow
                   (GcloudRunDeploy serviceName imageTag
                      (render (Config.region config))
                      (render (Config.projectId config))
                      envVars) ;;
                 let* out :=
                   execOrThrow
                     (GcloudRunDescribe serviceName
                        (render (Config.region config))
                        (render (Config.projectId config))) in
                 addDeployment
                   {| Deployment.serviceName := serviceName;
                      Deployment.type := deploymentType;
                      Deployment.branch := branchName;
                      Deployment.url := trim out;
                      Deployment.image := imageTag;
                      Deployment.region := Config.region config;
                      Deployment.timestamp := [] |}
                   (isoNow W) ;;
                 say (Log (js "Deployment successful!")))
                deployFailed.

(** *** list.js *)

Definition isRelevant (config : Config.t) (service : Service) : bool :=
  equalsString (metadataName service) (Config.serviceName config)
  || isPrefixOf (render (Config.serviceName config) ++ [hyphen])
       (metadataName service).

Definition toRow (config : Config.t) (h : History) (service : Service) : Row :=
  let historyEntry :=
    find (fun d => bool_decide (Deployment.serviceName d = metadataName service))
         (deployments h) in
  {| rowServiceName := metadataName service;
     rowUrl := statusUrl service;
     rowType :=
       match historyEntry with
       | Some d => Deployment.type d
       | None =>
           if equalsString (metadataName service) (Config.serviceName config)
           then Production else Preview
       end;
     rowBranch :=
       match historyEntry with
       | Some d => if truthy (Deployment.branch d) then Deployment.branch d
                   else js "unknown"
       | None => js "unknown"
       end |}.

Definition isProductionRow (r : Row) : bool :=
  match rowType r with
  | Production => true
  | Preview => false
  end.

Definition requestFailed (error : JsError) : M unit :=
  say (Error (js "Error: " ++ message error)).

Definition listCommand (options : ListOptions) : M unit :=
  let* initialized := isProjectInitialized in
  if negb initialized then notInitialized
  else
    let* document := readProjectConfig in
    tryCatch
      (let* config := properties (js "region") document in
       let* servicesOutput :=
         execOrThrow
           (GcloudRunServicesList (render (Config.region config))
              (render (Config.projectId config))) in
       match servicesOfJson W servicesOutput with
       | inl error => rethrow error
       | inr allServices =>
           let* h := readDeploymentHistory in
           let relevantServices := List.filter (isRelevant config) allServices in
           match relevantServices with
           | [] => say (Log (js "No deployments found."))
           | _ :: _ =>
               let rows := map (toRow config h) relevantServices in
               let showProduction :=
                 listProduction options
                 || (negb (listProduction options) && negb (listPreview options)) in
               let showPreview :=
                 listPreview options
                 || (negb (listProduction options) && negb (listPreview options)) in
               say (Table
                      (if showProduction then List.filter isProductionRow rows
                       else [])
                      (if showPreview
                       then List.filter (fun r => negb (isProductionRow r)) rows
                       else []))
           end
       end)
      requestFailed.

(** *** logs.js *)

(** [getDeployment(serviceName)] where [serviceName] is
    [config.serviceName], which need not be a string: the history is read,
    and no record's name is strictly equal to a value that is not one. *)
Definition getDeploymentOf (serviceName : JsValue) : M (option Deployment.t) :=
  match serviceName with
  | Str name => getDeployment name
  | _ => readDeploymentHistory ;; ret None
  end.

Definition logsCommand (options : LogsOptions) : M unit :=
  let* initialized := isProjectInitialized in
  if negb initialized then notInitialized
  else
    let* document := readProjectConfig in
    let named :=
      match deployment options with
      | Some v => truthy v
      | None => false
      end in
    let* serviceName :=
      match deployment options with
      | Some v =>
          if truthy v then ret (Str v)
          else let* config := properties (js "serviceName") document in
               ret (Config.serviceName config)
      | None =>
          let* config := properties (js "serviceName") document in
          ret (Config.serviceName config)
      end in
    let* found := getDeploymentOf serviceName in
    if negb (is_Some_bool found) && negb named then
      say (Log (js "No production deployment found."))
    else
      tryCatch
        ((* [new GCPClient(config.projectId, config.region)] *)
         properties (js "projectId") document ;;
         streamLogs (render serviceName) (fun e => say (Log (entryText e)))
           (follow options) ;;
         if follow options then
           (* [await new Promise(() => {})] *)
           (fun p => (Pending, p))
         else say (Log (js "Logs fetched")))
        requestFailed.

(** *** remove.js *)

Definition removeFailed (deploymentName : jsstring) (error : JsError) : M unit :=
  say (Error (js "Error: " ++ message error)) ;;
  if includes (js "403") (message error) then
    say (Log (js "Make sure you have the necessary permissions:"))
  else if includes (js "404") (message error) then
    say (Log (js "The service may have already been deleted.")) ;;
    removeDeployment deploymentName ;;
    say (Log (js "Removed from local deployment history."))
  else ret tt.

Definition removeCommand (deploymentName : jsstring) (options : RemoveOptions)
  : M unit :=
  let* initialized := isProjectInitialized in
  if negb initialized then notInitialized
  else if negb (truthy deploymentName) then
    say (Log (js "Error: Deployment name is required."))
  else
    let* document := readProjectConfig in
    let* config := properties (js "serviceName") document in
    (if equalsString deploymentName (Config.serviceName config) then
       say (Log (js "Warning: This is the production deployment!"))
     else ret tt) ;;
    let* found := getDeployment deploymentName in
    (match found with
     | Some _ => ret tt
     | None =>
         say (Log (js "Note: Deployment not found in local history, but may exist in Cloud Run."))
     end) ;;
    let* go :=
      if yes options then ret true
      else record Prompt ;; ret (confirmed W) in
    if negb go then say (Log (js "Deletion cancelled."))
    else
      tryCatch
        (let* service := getService deploymentName in
         match service with
         | None =>
             say (Warn (js "Service not found in Cloud Run")) ;;
             removeDeployment deploymentName ;;
             say (Log (js "Removed from local deployment history."))
         | Some _ =>
             deleteService deploymentName ;;
             removeDeployment deploymentName ;;
             say (Log (js "Deployment removed successfully!"))
         end)
        (removeFailed deploymentName).

(** *** index.js *)

Inductive Invocation :=
| Deploy (options : DeployOptions)
| ListDeployments (options : ListOptions)
| Logs (options : LogsOptions)
| Remove (deploymentName : jsstring) (options : RemoveOptions).

Definition handler (i : Invocation) : M unit :=
  match i with
  | Deploy options => deployCommand options
  | ListDeployments options => listCommand options
  | Logs options => logsCommand options
  | Remove deploymentName options => removeCommand deploymentName options
  end.

(** The action wrappers: an error that escapes the handler is printed and
    the process exits with status 1.  A handler that returns lets the
    process end by itself, with status 0.  The one handler that never
    returns is logsCommand in follow mode; its SIGINT listener calls
    [process.exit(0)]. *)
Definition run (i : Invocation) (p : Proc) : N * Proc :=
  match handler i p with
  | (Normal _, p') => (0, p')
  | (Pending, p') => (0, p')
  | (Thrown error, p') =>
      (1, {| disk := disk p'; calls := calls p';
             console := console p' ++ [Error (js "Error: " ++ message error)] |})
  end.

End Commands.

(** *** init.js *)

Module InitCommand.

(** The check of initCommand, a function of init.js with the name of the
    one of GCPClient: it asks for the active accounts and takes an empty
    answer for a sign that nobody is signed in. *)
Definition checkGcloudAuth (W : World) : M bool :=
  let* r := exec W GcloudAuthListActive in
  match r with
  | Exited out => ret (negb (bool_decide (length (trim out) = 0%nat)))
  | Failed _ => ret false
  end.

End InitCommand.

(** ** Vocabulary of the statements about the commands *)

(** The handler reads gcp-deploy.json: every handler does once the
    project is initialized, removeCommand only when it is given a name. *)
Definition readsConfig (i : Invocation) : bool :=
  match i with
  | Remove deploymentName _ => truthy deploymentName
  | _ => true
  end.


(** [options.deployment] is truthy. *)
Definition isNamed (options : LogsOptions) : bool :=
  match deployment options with
  | Some v => truthy v
  | None => false
  end.

(** The handler dereferences the configuration outside every [try], so
    that a document that is [null] makes it throw: deployCommand always,
    removeCommand when it is given a name, logsCommand when no deployment
    is named; listCommand reads it inside its [try]. *)
Definition dereferences (i : Invocation) : bool :=
  match i with
  | Deploy _ => true
  | ListDeployments _ => false
  | Logs options => negb (isNamed options)
  | Remove deploymentName _ => truthy deploymentName
  end.

(** The states of gcp-deploy.json on which an error leaves the handler:
    a text that does not parse, when the handler reads the file; [null],
    when the handler dereferences it; and, for deployCommand, an object
    whose serviceName is not a string. *)
Definition escapes (i : Invocation) (f : file Document) : bool :=
  match f with
  | Absent => false
  | Malformed _ => readsConfig i
  | Stored NullDocument => dereferences i
  | Stored (Properties config) =>
      match i with
      | Deploy _ => negb (isString (Config.serviceName config))
      | _ => false
      end
  end.

(** The calls that build, tag or push an image or deploy a service. *)
Definition buildsPushesOrDeploys (c : Call) : bool :=
  match c with
  | Exec (DockerBuild _) | Exec (DockerTag _ _) | Exec (DockerPush _)
  | Exec (GcloudRunDeploy _ _ _ _ _) => true
  | _ => false
  end.

(** A computation that never throws. *)
Definition NoThrow {A} (m : M A) : Prop :=
  forall p e, (m p).1 <> Thrown e.

(** The test of the handler of removeCommand that leads to the removal
    of the history record. *)
Definition reads404 (text : jsstring) : bool :=
  negb (includes (js "403") text) && includes (js "404") text.

(** Whether removeCommand, once confirmed, calls removeDeployment. *)
Definition cleansHistory (W : World) (deploymentName : jsstring) : bool :=
  match apiGetService W deploymentName with
  | inl error =>
      (code error =? 5)
      || reads404 (js "Failed to get service: " ++ apiMessage error)
  | inr _ =>
      match apiDeleteService W deploymentName with
      | inr _ => true
      | inl error => reads404 (js "Failed to delete service: " ++ apiMessage error)
      end
  end.

(** ** The remaining operations of lib/config.js *)

Definition setProjectConfig (c : file Document) (d : Disk) : Disk :=
  {| globalConfig := globalConfig d; projectConfig := c;
     history := history d; writeFailure := writeFailure d |}.

Definition writeGlobalConfig (config : GlobalConfig) : M bool :=
  ensureGlobalConfigDir ;;
  let* d := getDisk in
  match writeFailure d with
  | None => putDisk (setGlobalConfig (Some (Stored config)) d) ;; ret true
  | Some failure =>
      say (Error (js "Error writing global config: " ++ failure)) ;;
      ret false
  end.

Definition writeProjectConfig (config : Config.t) : M bool :=
  let* d := getDisk in
  match writeFailure d with
  | None => putDisk (setProjectConfig (Stored (Properties config)) d) ;; ret true
  | Some failure => throw (js "Error writing project config: " ++ failure)
  end.

(** [parts.join(sep)] for a separator of any length. *)
Fixpoint joinWith (sep : jsstring) (parts : list jsstring) : jsstring :=
  match parts with
  | [] => []
  | p :: ps =>
      match ps with
      | [] => p
      | _ :: _ => p ++ sep ++ joinWith sep ps
      end
  end.

(** The array [required] of validateProjectConfig, each name with the
    property it reads. *)
Definition required : list (jsstring * (Config.t -> JsValue)) :=
  [ (js "projectId", Config.projectId);
    (js "region", Config.region);
    (js "serviceName", Config.serviceName) ].

(** [required.filter(field => !config[field])] *)
Definition missing (config : Config.t) : list jsstring :=
  map fst
    (List.filter (fun field => negb (truthyValue (snd field config))) required).

(** On [null] the first [config[field]] throws. *)
Definition validateProjectConfig (document : Document) : M bool :=
  let* config := properties (js "projectId") document in
  match missing config with
  | [] => ret true
  | _ :: _ =>
      throw (js "Missing required configuration fields: "
             ++ joinWith (js ", ") (missing config))
  end.

(** ** The service-name prompt of init.js *)

(** [initial: path.basename(process.cwd()).toLowerCase().replace(/[^a-z0-9-]/g, '-')] *)
Definition initialServiceName (L : Lowercasing) (basename : jsstring) : jsstring :=
  replaceDisallowed (toLowerCase L basename).

(** The [validate] function of the prompt: [None] is [true], otherwise
    the message shown. *)
Definition validateServiceName (value : jsstring) : option jsstring :=
  if bool_decide (length value = 0%nat) then Some (js "Service name is required")
  else if negb (truthy value && forallb isNameChar value)
       then Some (js "Service name must be lowercase alphanumeric with hyphens")
       else None.

(** [format: value => value.toLowerCase()] *)
Definition formatServiceName (L : Lowercasing) (value : jsstring) : jsstring :=
  toLowerCase L value.

(** ** Vocabulary of the statements about deployCommand *)

(** The value of [options.branch || getCurrentBranch()]. *)
Definition branchNameOf (W : World) (options : DeployOptions) : jsstring :=
  let current :=
    match execSync W GitRevParse with
    | Exited out => trim out
    | Failed _ => main
    end in
  match branch options with
  | Some v => if truthy v then v else current
  | None => current
  end.

(** Whether [getCurrentBranch] is called. *)
Definition asksGit (options : DeployOptions) : bool :=
  match branch options with
  | Some v => negb (truthy v)
  | None => true
  end.

(** The service name and the deployment type deployCommand settles on,
    for a configuration whose serviceName is a string, the value [render]
    gives back. *)
Definition targetOf (L : Lowercasing) (W : World) (options : DeployOptions)
    (config : Config.t) : jsstring * DeploymentType :=
  resolveService L (render (Config.serviceName config))
    (production options) (preview options) (branchNameOf W options)
    (toLowerCase L (nanoid8 W)).

Definition imageTagOf (L : Lowercasing) (W : World) (options : DeployOptions)
    (config : Config.t) : jsstring :=
  render (Config.artifactRegistry config) ++ js "/"
  ++ (targetOf L W options config).1 ++ js ":" ++ dateNow W.

Definition imageLatestOf (L : Lowercasing) (W : World) (options : DeployOptions)
    (config : Config.t) : jsstring :=
  render (Config.artifactRegistry config) ++ js "/"
  ++ (targetOf L W options config).1 ++ js ":latest".

(** The calls of a deployment that goes through, in order. *)
Definition deployPlan (L : Lowercasing) (W : World) (options : DeployOptions)
    (config : Config.t) : list Call :=
  (if asksGit options then [Exec GitRevParse] else [])
  ++ [ Exec DockerInfo;
       Exec GcloudAuthList;
       Exec (GcloudConfigureDocker (render (Config.region config)));
       Exec (DockerBuild (imageTagOf L W options config));
       Exec (DockerTag (imageTagOf L W options config)
               (imageLatestOf L W options config));
       Exec (DockerPush (imageTagOf L W options config));
       Exec (DockerPush (imageLatestOf L W options config));
       Exec (GcloudRunDeploy (targetOf L W options config).1
               (imageTagOf L W options config)
               (render (Config.region config))
               (render (Config.projectId config))
               (parseEnvFile (envFile W)).1);
       Exec (GcloudRunDescribe (targetOf L W options config).1
               (render (Config.region config))
               (render (Config.projectId config))) ].

(** The steps whose failure ends the pipeline all succeed: the two
    probes, the registry login, the build, the push of the timestamped
    tag, the deployment and the description.  The tagging and the push of
    [:latest] are not among them. *)
Definition pipelineSucceeds (L : Lowercasing) (W : World) (options : DeployOptions)
    (config : Config.t) : bool :=
  succeeded (execSync W DockerInfo)
  && succeeded (execSync W GcloudAuthList)
  && succeeded (execSync W (GcloudConfigureDocker (render (Config.region config))))
  && succeeded (execSync W (DockerBuild (imageTagOf L W options config)))
  && succeeded (execSync W (DockerPush (imageTagOf L W options config)))
  && succeeded (execSync W
       (GcloudRunDeploy (targetOf L W options config).1
          (imageTagOf L W options config)
          (render (Config.region config)) (render (Config.projectId config))
          (parseEnvFile (envFile W)).1))
  && succeeded (execSync W
       (GcloudRunDescribe (targetOf L W options config).1
          (render (Config.region config)) (render (Config.projectId config)))).

Definition stdoutOf (r : ExecResult) : jsstring :=
  match r with
  | Exited out => out
  | Failed _ => []
  end.

(** The record a deployment that goes through adds to the history. *)
Definition recordOf (L : Lowercasing) (W : World) (options : DeployOptions)
    (config : Config.t) : Deployment.t :=
  {| Deployment.serviceName := (targetOf L W options config).1;
     Deployment.type := (targetOf L W options config).2;
     Deployment.branch := branchNameOf W options;
     Deployment.url :=
       trim (stdoutOf (execSync W
               (GcloudRunDescribe (targetOf L W options config).1
                  (render (Config.region config))
                  (render (Config.projectId config)))));
     Deployment.image := imageTagOf L W options config;
     Deployment.region := Config.region config;
     Deployment.timestamp := isoNow W |}.

(** A string that sanitizeBranchName has nothing to do on. *)
Definition isCleanFragment (s : jsstring) : bool :=
  forallb isNameChar s
  && noConsecutiveHyphens s
  && negb (startsWith hyphen s)
  && negb (endsWith hyphen s)
  && bool_decide (length s <= 30)%nat.

(** A key and a value that parseEnvFile reads back as they are written:
    the key is not empty, holds no [=] and no newline, has no white space
    at its ends, does not start with [#] and is not [__proto__]; the value
    holds no newline, has no white space at its ends and does not both
    start and end with the same quote character. *)
Definition isPlainKey (k : jsstring) : bool :=
  truthy k
  && forallb (fun c => negb (c =? equals) && negb (c =? newline)) k
  && bool_decide (trim k = k)
  && negb (startsWith hash k)
  && negb (bool_decide (k = proto)).

Definition isPlainValue (v : jsstring) : bool :=
  forallb (fun c => negb (c =? newline)) v
  && bool_decide (trim v = v)
  && bool_decide (stripQuotes v = v).

(** What holds of every key of the mapping parseEnvFile returns. *)
Definition keyOfLoader (k : jsstring) : Prop :=
  k <> [] /\ trim k = k /\ k <> proto
  /\ forallb (fun c => negb (c =? equals)) k = true
  /\ startsWith hash k = false.


(** ** Vocabulary of the statements about logsCommand *)

(** The service whose logs are asked for: [options.deployment] when it is
    given and not empty, [config.serviceName] otherwise. *)
Definition logTarget (options : LogsOptions) (config : Config.t) : JsValue :=
  match deployment options with
  | Some v => if truthy v then Str v else Config.serviceName config
  | None => Config.serviceName config
  end.

(** The history a reader sees holds a record of the name; of a value
    that is not a string it holds none. *)
Definition recorded (serviceName : JsValue) (p : Proc) : bool :=
  match serviceName with
  | Str name =>
      is_Some_bool
        (find (fun d => bool_decide (Deployment.serviceName d = name))
              (currentHistory p))
  | _ => false
  end.

(** ** Vocabulary of the statements about listCommand *)


(** ** Sample data *)

Module Samples.

Definition envSample : jsstring :=
  js "# settings" ++ [newline] ++
  js "  URL = 'postgres://u:p@h/db?a=b' " ++ [newline] ++
  [newline] ++
  js "KEY=one" ++ [newline] ++
  js "=orphan" ++ [newline] ++
  js "FLAG" ++ [newline] ++
  js "KEY=" ++ [dquote] ++ js "two" ++ [dquote].

Definition corruptDisk : Disk :=
  {| globalConfig := Some (Malformed (js "Unexpected end of JSON input"));
     projectConfig := Malformed (js "Unexpected end of JSON input");
     history := Malformed (js "Unexpected end of JSON input");
     writeFailure := None |}.

Definition sampleDeployment (name : jsstring) : Deployment.t :=
  {| Deployment.serviceName := name;
     Deployment.type := Production;
     Deployment.branch := main;
     Deployment.url := js "https://app-xyz.run.app";
     Deployment.image := js "us-central1-docker.pkg.dev/shop/cloud-run-source-deploy/app:1";
     Deployment.region := Str (js "us-central1");
     Deployment.timestamp := [] |}.

Definition sampleConfig : Config.t :=
  {| Config.projectId := Str (js "shop");
     Config.region := Str (js "us-central1");
     Config.serviceName := Str (js "app");
     Config.artifactRegistry :=
       Str (js "us-central1-docker.pkg.dev/shop/cloud-run-source-deploy");
     Config.version := Str (js "1.0") |}.

(** An initialized project whose history holds [h]. *)
Definition procWithHistory (h : list Deployment.t) : Proc :=
  {| disk := {| globalConfig := None;
                projectConfig := Stored (Properties sampleConfig);
                history := Stored {| deployments := h |}; writeFailure := None |};
     calls := []; console := [] |}.

Definition sampleService (name : jsstring) : Service :=
  {| metadataName := name; statusUrl := js "https://app-xyz.run.app" |}.

(** A world in which every child process succeeds, except those [fails]
    selects, and in which the Cloud Run client answers [getService] and
    [deleteService] as given. *)
Definition world (fails : Command -> bool)
    (getAnswer : ApiError + Service) (deleteAnswer : ApiError + unit) : World :=
  {| execSync := fun c =>
       if fails c
       then Failed {| message := js "Command failed"; stderr := js "exit status 1" |}
       else match c with
            | GitRevParse => Exited (js "main" ++ [newline])
            | GcloudAuthList =>
                Exited (js "ACTIVE  ACCOUNT" ++ [newline] ++ js "*       dev@example.com"
                        ++ [newline])
            | GcloudAuthListActive => Exited (js "dev@example.com" ++ [newline])
            | GcloudRunDescribe _ _ _ =>
                Exited (js "https://app-xyz.run.app" ++ [newline])
            | _ => Exited []
            end;
     envFile := NoEnvFile;
     nanoid8 := js "a1b2c3d4";
     dateNow := js "1700000000000";
     isoNow := js "2023-11-14T22:13:20.000Z";
     confirmed := true;
     servicesOfJson := fun _ => inr [];
     apiGetService := fun _ => getAnswer;
     apiDeleteService := fun _ => deleteAnswer;
     apiGetEntries := fun _ => inr [] |}.

Definition dockerDown (c : Command) : bool :=
  match c with
  | DockerInfo => true
  | _ => false
  end.

Definition buildBroken (c : Command) : bool :=
  match c with
  | DockerBuild _ => true
  | _ => false
  end.

Definition nothingFails (c : Command) : bool := false.

Definition productionDeploy : DeployOptions :=
  {| production := true; preview := false; branch := None |}.

(** The service exists; its deletion is refused for lack of permission.
    The message names the resource, and the project number in it
    contains the digits 404. *)
Definition permissionDenied : ApiError :=
  {| code := 7;
     apiMessage :=
       js "7 PERMISSION_DENIED: Permission 'run.services.delete' denied on resource 'projects/shop-240412/locations/us-central1/services/app'" |}.

(** The service disappears between getService and deleteService; the
    client reports NOT_FOUND in the words of gRPC. *)
Definition notFound : ApiError :=
  {| code := 5;
     apiMessage := js "5 NOT_FOUND: Service app was not found" |}.

(** Every call succeeds, the service exists. *)
Definition quietWorld : World :=
  world nothingFails (inr (sampleService (js "app"))) (inr tt).

Definition dockerDownWorld : World :=
  world dockerDown (inr (sampleService (js "app"))) (inr tt).

Definition buildBrokenWorld : World :=
  world buildBroken (inr (sampleService (js "app"))) (inr tt).

Definition permissionDeniedWorld : World :=
  world nothingFails (inr (sampleService (js "app"))) (inl permissionDenied).

Definition vanishedServiceWorld : World :=
  world nothingFails (inr (sampleService (js "app"))) (inl notFound).

Definition corruptProc : Proc :=
  {| disk := corruptDisk; calls := []; console := [] |}.

Definition logEntry1 : LogEntry :=
  {| insertId := 1; entryTimestamp := 1700000001000; entryText := js "GET / 200" |}.

End Samples.

Import Samples.

(** ** More sample data *)

Module Cases.

Definition incompleteConfig : Config.t :=
  {| Config.projectId := Undefined;
     Config.region := Str (js "us-central1");
     Config.serviceName := Str [];
     Config.artifactRegistry := Undefined;
     Config.version := Str (js "1.0") |}.

Definition readOnlyProc : Proc :=
  {| disk := {| globalConfig := None;
                projectConfig := Stored (Properties sampleConfig);
                history := Stored {| deployments := [sampleDeployment (js "app")] |};
                writeFailure := Some (js "EROFS: read-only file system") |};
     calls := []; console := [] |}.

Definition uninitializedProc : Proc :=
  {| disk := {| globalConfig := None; projectConfig := Absent;
                history := Absent; writeFailure := None |};
     calls := []; console := [] |}.

Definition previewDeploy : DeployOptions :=
  {| production := false; preview := true; branch := Some (js "feature/login") |}.

Definition askFirst : RemoveOptions := {| yes := false |}.

(** The user answers no to the confirmation. *)
Definition decliningWorld : World :=
  {| execSync := execSync quietWorld;
     envFile := envFile quietWorld;
     nanoid8 := nanoid8 quietWorld;
     dateNow := dateNow quietWorld;
     isoNow := isoNow quietWorld;
     confirmed := false;
     servicesOfJson := servicesOfJson quietWorld;
     apiGetService := apiGetService quietWorld;
     apiDeleteService := apiDeleteService quietWorld;
     apiGetEntries := apiGetEntries quietWorld |}.

(** The service is not found by getService. *)
Definition absentServiceWorld : World :=
  world nothingFails (inl notFound) (inr tt).

Definition internalError : ApiError :=
  {| code := 13; apiMessage := js "13 INTERNAL: backend unavailable" |}.

Definition deleteBrokenWorld : World :=
  world nothingFails (inr (sampleService (js "app"))) (inl internalError).

Definition logEntry2 : LogEntry :=
  {| insertId := 2; entryTimestamp := 1700000003000; entryText := js "GET /about 200" |}.

Definition staleEntry : LogEntry :=
  {| insertId := 0; entryTimestamp := 1699999999000; entryText := js "boot" |}.

Definition tagBroken (c : Command) : bool :=
  match c with
  | DockerTag _ _ => true
  | _ => false
  end.

(** Tagging the image fails, every other step succeeds. *)
Definition tagBrokenWorld : World :=
  world tagBroken (inr (sampleService (js "app"))) (inr tt).



Definition bothKinds : ListOptions :=
  {| listProduction := false; listPreview := false |}.

Definition onceProduction : LogsOptions :=
  {| follow := false; deployment := None |}.

(** Cloud Logging answers with two entries, newest first. *)
Definition loggingWorld : World :=
  {| execSync := execSync quietWorld;
     envFile := envFile quietWorld;
     nanoid8 := nanoid8 quietWorld;
     dateNow := dateNow quietWorld;
     isoNow := isoNow quietWorld;
     confirmed := true;
     servicesOfJson := servicesOfJson quietWorld;
     apiGetService := apiGetService quietWorld;
     apiDeleteService := apiDeleteService quietWorld;
     apiGetEntries := fun _ => inr [logEntry2; logEntry1] |}.

(** Nobody is signed in to gcloud: [gcloud auth list] reports it on the
    standard error, prints nothing and exits with status 0.  The image is
    built and tagged; the registry then refuses the push. *)
Definition signedOutWorld : World :=
  {| execSync := fun c =>
       match c with
       | GitRevParse => Exited (js "main" ++ [newline])
       | GcloudAuthList | GcloudAuthListActive => Exited []
       | DockerPush _ | GcloudRunDeploy _ _ _ _ _ | GcloudRunDescribe _ _ _
       | GcloudRunServicesList _ _ =>
           Failed {| message := js "Command failed";
                     stderr := js "unauthorized: authentication required" |}
       | _ => Exited []
       end;
     envFile := envFile quietWorld;
     nanoid8 := nanoid8 quietWorld;
     dateNow := dateNow quietWorld;
     isoNow := isoNow quietWorld;
     confirmed := true;
     servicesOfJson := servicesOfJson quietWorld;
     apiGetService := apiGetService quietWorld;
     apiDeleteService := apiDeleteService quietWorld;
     apiGetEntries := apiGetEntries quietWorld |}.

(** nanoid draws an underscore and an upper-case letter. *)
Definition underscoreWorld : World :=
  {| execSync := execSync quietWorld;
     envFile := envFile quietWorld;
     nanoid8 := js "a1B2_3d4";
     dateNow := dateNow quietWorld;
     isoNow := isoNow quietWorld;
     confirmed := true;
     servicesOfJson := servicesOfJson quietWorld;
     apiGetService := apiGetService quietWorld;
     apiDeleteService := apiDeleteService quietWorld;
     apiGetEntries := apiGetEntries quietWorld |}.

(** A project directory whose gcp-deploy.json parses to [document]. *)
Definition procWithDocument (document : Document) : Proc :=
  {| disk := {| globalConfig := None; projectConfig := Stored document;
                history := Stored {| deployments := [sampleDeployment (js "app")] |};
                writeFailure := None |};
     calls := []; console := [] |}.

(** The object of gcp-deploy.json after the line of serviceName was
    deleted. *)
Definition namelessConfig : Config.t :=
  {| Config.projectId := Config.projectId sampleConfig;
     Config.region := Config.region sampleConfig;
     Config.serviceName := Undefined;
     Config.artifactRegistry := Config.artifactRegistry sampleConfig;
     Config.version := Config.version sampleConfig |}.

End Cases.
Import Cases.

(** * Properties *)

(** ** Strings *)

Section StripFacts.
Context (p : N -> bool).

Lemma stripStart_suffix (s : jsstring) :
  exists pre, s = pre ++ stripStart p s /\ forallb p pre = true.
Proof.
  induction s as [|c s IH]; simpl.
  - by exists [].
  - destruct (p c) eqn:Hc.
    + destruct IH as (pre & Hs & Hp). exists (c :: pre). simpl.
      rewrite Hc, Hp. split; [by f_equal | done].
    + by exists [].
Qed.

Lemma stripEnd_prefix (s : jsstring) :
  exists suf, s = stripEnd p s ++ suf /\ forallb p suf = true.
Proof.
  induction s as [|c s IH]; simpl.
  - by exists [].
  - destruct IH as (suf & Hs & Hp).
    destruct (stripEnd p s) as [|d r] eqn:Hr.
    + simpl in Hs. subst suf. destruct (p c) eqn:Hc.
      * exists (c :: s). simpl. by rewrite Hc, Hp.
      * exists s. by simpl.
    + exists suf. split; [|done]. simpl. by rewrite Hs at 1.
Qed.

Lemma stripStart_head (s : jsstring) c r :
  stripStart p s = c :: r -> p c = false.
Proof.
  induction s as [|d s IH]; simpl; [done|].
  destruct (p d) eqn:Hd; [done|]. intros [= -> _]. done.
Qed.

Lemma stripEnd_last (s : jsstring) c :
  last (stripEnd p s) = Some c -> p c = false.
Proof.
  induction s as [|d s IH]; simpl; [done|].
  destruct (stripEnd p s) as [|e r] eqn:Hr.
  - destruct (p d) eqn:Hd; simpl; [done|]. by intros [= <-].
  - rewrite last_cons. destruct (last (e :: r)) eqn:Hl.
    + intros [= <-]. by apply IH.
    + by apply last_None in Hl.
Qed.

Lemma stripStart_keeps (s : jsstring) c :
  In c s -> p c = false -> In c (stripStart p s).
Proof.
  induction s as [|d s IH]; simpl; [done|].
  intros [-> | Hin] Hc.
  - rewrite Hc. by left.
  - destruct (p d); [by apply IH | by right].
Qed.

Lemma stripEnd_keeps (s : jsstring) c :
  In c s -> p c = false -> In c (stripEnd p s).
Proof.
  induction s as [|d s IH]; simpl; [done|].
  intros [-> | Hin] Hc.
  - destruct (stripEnd p s); [rewrite Hc|]; by left.
  - specialize (IH Hin Hc). destruct (stripEnd p s); [done | by right].
Qed.

Lemma stripStart_In (s : jsstring) c : In c (stripStart p s) -> In c s.
Proof.
  destruct (stripStart_suffix s) as (pre & Hs & _). intros H.
  rewrite Hs. apply in_or_app. by right.
Qed.

Lemma stripEnd_In (s : jsstring) c : In c (stripEnd p s) -> In c s.
Proof.
  destruct (stripEnd_prefix s) as (suf & Hs & _). intros H.
  rewrite Hs. apply in_or_app. by left.
Qed.

Lemma stripEnd_head (s : jsstring) c r :
  stripEnd p s = c :: r -> exists r', s = c :: r'.
Proof.
  destruct (stripEnd_prefix s) as (suf & Hs & _). intros H.
  rewrite H in Hs. by exists (r ++ suf).
Qed.

End StripFacts.

(** ** Naming *)

(** Boolean comparisons of code units, turned into arithmetic. *)
Ltac unit_arith :=
  repeat match goal with
    | H : _ && _ = true |- _ => apply andb_prop in H as [? ?]
    | H : _ || _ = true |- _ => apply orb_prop in H as [? | ?]
    | H : _ && _ = false |- _ => apply andb_false_iff in H as [? | ?]
    | H : (_ <=? _) = true |- _ => apply N.leb_le in H
    | H : (_ <=? _) = false |- _ => apply N.leb_gt in H
    | H : (_ =? _) = true |- _ => apply N.eqb_eq in H
    | H : (_ =? _) = false |- _ => apply N.eqb_neq in H
    | H : (_ <? _) = true |- _ => apply N.ltb_lt in H
    | |- (_ <? _) = true => apply N.ltb_lt
    | |- (_ =? _) = false => apply N.eqb_neq
    end;
  try lia.

Lemma alnum_not_hyphen c : isAlnum c = true -> isHyphen c = false.
Proof.
  unfold isAlnum, isLower, isDigit, isHyphen, hyphen. intros H. unit_arith.
Qed.

Lemma nameChar_not_hyphen c :
  isNameChar c = true -> isHyphen c = false -> isAlnum c = true.
Proof. unfold isNameChar. intros H Hh. rewrite Hh in H. by destruct (isAlnum c). Qed.

Lemma nameChar_lowerAscii c :
  isNameChar c = true -> isAscii c = true /\ lowerAscii c = c.
Proof.
  unfold isNameChar, isAlnum, isLower, isDigit, isHyphen, hyphen,
    isAscii, lowerAscii, isUpper.
  intros H. split.
  - unit_arith.
  - destruct ((65 <=? c) && (c <=? 90)) eqn:Hu; [|done]. unit_arith.
Qed.

Lemma startsWith_hyphen_collapse (s : jsstring) :
  startsWith hyphen (collapseHyphens s) = startsWith hyphen s.
Proof.
  induction s as [|c s IH]; simpl; [done|].
  destruct (isHyphen c && startsWith hyphen s) eqn:Hc; [|done].
  apply andb_prop in Hc as [Hc Hs]. rewrite IH, Hs. symmetry. exact Hc.
Qed.

Lemma collapseHyphens_In (s : jsstring) c : In c (collapseHyphens s) -> In c s.
Proof.
  induction s as [|d s IH]; simpl; [done|].
  destruct (isHyphen d && startsWith hyphen s); simpl; intuition.
Qed.

Lemma collapseHyphens_keeps (s : jsstring) c :
  In c s -> isHyphen c = false -> In c (collapseHyphens s).
Proof.
  induction s as [|d s IH]; simpl; [done|].
  intros [-> | Hin] Hc.
  - rewrite Hc. simpl. by left.
  - destruct (isHyphen d && startsWith hyphen s); simpl; auto.
Qed.

Lemma collapseHyphens_noConsecutive (s : jsstring) :
  noConsecutiveHyphens (collapseHyphens s) = true.
Proof.
  induction s as [|c s IH]; simpl; [done|].
  destruct (isHyphen c && startsWith hyphen s) eqn:Hc; [done|].
  simpl. by rewrite startsWith_hyphen_collapse, Hc, IH.
Qed.

Lemma noConsecutiveHyphens_app (a b : jsstring) :
  noConsecutiveHyphens (a ++ b) = true ->
  noConsecutiveHyphens a = true /\ noConsecutiveHyphens b = true.
Proof.
  induction a as [|c a IH]; simpl; [done|].
  intros H. apply andb_prop in H as [H1 H2]. destruct (IH H2) as [Ha Hb].
  split; [|done]. rewrite Ha, andb_true_r.
  destruct a; simpl in *; [by rewrite andb_false_r | done].
Qed.

Lemma trimHyphens_noConsecutive (s : jsstring) :
  noConsecutiveHyphens s = true -> noConsecutiveHyphens (trimHyphens s) = true.
Proof.
  unfold trimHyphens. intros H.
  destruct (stripStart_suffix isHyphen s) as (pre & Hs & _).
  rewrite Hs in H. apply noConsecutiveHyphens_app in H as [_ H].
  destruct (stripEnd_prefix isHyphen (stripStart isHyphen s)) as (suf & Hs' & _).
  rewrite Hs' in H. by apply noConsecutiveHyphens_app in H as [H _].
Qed.

Lemma trimHyphens_In (s : jsstring) c : In c (trimHyphens s) -> In c s.
Proof. unfold trimHyphens. intros H. by apply stripEnd_In, stripStart_In in H. Qed.

Lemma forallb_incl (f : N -> bool) (a b : jsstring) :
  (forall c, In c a -> In c b) -> forallb f b = true -> forallb f a = true.
Proof. rewrite !forallb_forall. auto. Qed.

Lemma take_In (n : nat) (s : jsstring) c : In c (take n s) -> In c s.
Proof. rewrite <- !list_elem_of_In. apply subseteq_take. Qed.

Lemma replaceDisallowed_alphabet (s : jsstring) :
  forallb isNameChar (replaceDisallowed s) = true.
Proof.
  induction s as [|c s IH]; simpl; [done|]. rewrite IH, andb_true_r.
  by destruct (isNameChar c) eqn:Hc.
Qed.

(** Whatever the lower-casing does, a sanitized branch is over [[a-z0-9-]]. *)
Lemma sanitizeBranchName_alphabet (L : Lowercasing) (branch : jsstring) :
  overNameAlphabet (sanitizeBranchName L branch) = true.
Proof.
  unfold overNameAlphabet, sanitizeBranchName, trimTrailingHyphens, substring_0_30.
  eapply forallb_incl; [|apply (replaceDisallowed_alphabet (toLowerCase L branch))].
  intros c H.
  by apply stripEnd_In, take_In, trimHyphens_In, collapseHyphens_In in H.
Qed.

Lemma sanitizeBranchName_length (L : Lowercasing) (branch : jsstring) :
  (length (sanitizeBranchName L branch) <= 30)%nat.
Proof.
  unfold sanitizeBranchName, trimTrailingHyphens, substring_0_30.
  match goal with |- context [stripEnd isHyphen ?x] =>
    destruct (stripEnd_prefix isHyphen x) as (suf & Hs & _);
    assert (Hl : (length x <= 30)%nat) by (rewrite length_take; lia);
    rewrite Hs, length_app in Hl
  end. lia.
Qed.

Lemma matchesServiceNamePattern_intro (s : jsstring) :
  s <> [] ->
  forallb isNameChar s = true ->
  (forall c r, s = c :: r -> isHyphen c = false) ->
  (forall c, last s = Some c -> isHyphen c = false) ->
  matchesServiceNamePattern s = true.
Proof.
  destruct s as [|c rest]; [done|]. intros _ Hall Hhead Hlast. simpl in *.
  apply andb_prop in Hall as [Hc Hrest].
  rewrite (nameChar_not_hyphen c Hc (Hhead c rest eq_refl)). simpl.
  destruct (reverse rest) as [|l middle] eqn:Hrev; [done|].
  assert (Hr : rest = reverse middle ++ [l]).
  { by rewrite <- (reverse_involutive rest), Hrev, reverse_cons. }
  subst rest. rewrite forallb_app in Hrest. simpl in Hrest.
  apply andb_prop in Hrest as [Hmid Hl]. rewrite andb_true_r in Hl.
  rewrite nameChar_not_hyphen; [simpl | done |].
  - eapply forallb_incl; [|exact Hmid]. intros x Hx.
    apply list_elem_of_In, elem_of_reverse. by apply list_elem_of_In.
  - apply Hlast. by rewrite last_cons, last_snoc.
Qed.

Lemma previewServiceName_valid (serviceName sanitizedBranch uniqueId : jsstring) :
  overNameAlphabet serviceName = true ->
  overNameAlphabet sanitizedBranch = true ->
  isSuffix8 uniqueId = true ->
  matchesServiceNamePattern
    (previewServiceName serviceName sanitizedBranch uniqueId) = true
  /\ noConsecutiveHyphens
       (previewServiceName serviceName sanitizedBranch uniqueId) = true.
Proof.
  unfold overNameAlphabet, isSuffix8, previewServiceName.
  intros Hbase Hsan Hid. apply andb_prop in Hid as [Hlen Hid].
  apply bool_decide_eq_true in Hlen.
  set (s := serviceName ++ [hyphen] ++ sanitizedBranch ++ [hyphen] ++ uniqueId).
  assert (Hs : forallb isNameChar s = true).
  { unfold s. rewrite !forallb_app, Hbase, Hsan. simpl.
    apply forallb_forall. intros c Hc. unfold isNameChar.
    by rewrite (proj1 (forallb_forall _ _) Hid c Hc). }
  split.
  - destruct uniqueId as [|u rest]; [done|]. simpl in Hid.
    apply andb_prop in Hid as [Hu _].
    assert (Hin : In u (trimHyphens (collapseHyphens s))).
    { pose proof (alnum_not_hyphen u Hu) as Hh.
      apply stripEnd_keeps; [|done]. apply stripStart_keeps; [|done].
      apply collapseHyphens_keeps; [|done].
      unfold s. rewrite !in_app_iff. do 4 right. by left. }
    apply matchesServiceNamePattern_intro.
    + intros E. by rewrite E in Hin.
    + eapply forallb_incl; [|exact Hs]. intros c Hc.
      by apply trimHyphens_In, collapseHyphens_In in Hc.
    + intros c r E. unfold trimHyphens in E.
      apply stripEnd_head in E as [r' E]. by apply stripStart_head in E.
    + intros c. apply stripEnd_last.
  - apply trimHyphens_noConsecutive, collapseHyphens_noConsecutive.
Qed.

Example sanitize_feature_branch :
  sanitizeBranchName asciiLowercasing (js "feature/User_Auth") = js "feature-user-auth".
Proof. reflexivity. Qed.

Example sanitize_separators_only :
  sanitizeBranchName asciiLowercasing (js "--//__--") = [].
Proof. reflexivity. Qed.

(** A code unit outside ASCII (here U+00E9 and U+4E2D) becomes a separator. *)
Example sanitize_unicode :
  sanitizeBranchName asciiLowercasing (js "caf" ++ [233; 20013] ++ js "x") = js "caf-x".
Proof. reflexivity. Qed.

(** Truncation at 30 units can expose a hyphen, which the last step removes. *)
Example sanitize_long_branch :
  sanitizeBranchName asciiLowercasing
    (js "feature/abcdefghijklmnopqrstu/vwxyz") = js "feature-abcdefghijklmnopqrstu".
Proof. reflexivity. Qed.

Example preview_name_of_feature_branch :
  resolveService asciiLowercasing (js "my-app") false false
    (js "feature/user-auth") (js "a1b2c3d4")
  = (js "my-app-feature-user-auth-a1b2c3d4", Preview).
Proof. reflexivity. Qed.

(** An empty sanitized branch leaves one separator between base and suffix. *)
Example preview_name_of_empty_branch :
  previewServiceName (js "my-app") [] (js "a1b2c3d4") = js "my-app-a1b2c3d4".
Proof. reflexivity. Qed.

(** The guarantee rests on the suffix being alphanumeric: an underscore in
    it reaches the name unchanged. *)
Example preview_name_with_underscore_suffix :
  previewServiceName (js "my-app") (js "x") (js "a1b2_3d4") = js "my-app-x-a1b2_3d4"
  /\ matchesServiceNamePattern
       (previewServiceName (js "my-app") (js "x") (js "a1b2_3d4")) = false.
Proof. split; reflexivity. Qed.

(** C1, where the code departs from it.  The suffix is
    [nanoid(8).toLowerCase()], and nanoid draws from [A-Za-z0-9_-]: the
    lower-casing deals with the capitals and the two replacements that
    follow with the hyphens, but nothing removes an underscore, as
    sanitizeBranchName does for the branch and the init prompt for the
    base name.  With the identifier [a1B2_3d4] the suffix is not
    alphanumeric, and deployCommand deploys, and records, a preview
    service whose name does not match the pattern and which the prompt of
    init would refuse. *)
Theorem preview_name_with_underscore :
  isNanoid8 (nanoid8 underscoreWorld) = true
  /\ isSuffix8 (toLowerCase asciiLowercasing (nanoid8 underscoreWorld)) = false
  /\ names (currentHistory
              (deployCommand asciiLowercasing underscoreWorld previewDeploy
                 (procWithHistory [])).2)
     = [js "app-feature-login-a1b2_3d4"]
  /\ matchesServiceNamePattern (js "app-feature-login-a1b2_3d4") = false
  /\ validateServiceName (js "app-feature-login-a1b2_3d4")
     = Some (js "Service name must be lowercase alphanumeric with hyphens").
Proof. repeat split; by vm_compute. Qed.

(** Whatever the identifier, the two replacements leave no two hyphens in
    a row in the name. *)
Lemma previewServiceName_noConsecutive
    (serviceName sanitizedBranch uniqueId : jsstring) :
  noConsecutiveHyphens (previewServiceName serviceName sanitizedBranch uniqueId)
  = true.
Proof.
  unfold previewServiceName.
  apply trimHyphens_noConsecutive, collapseHyphens_noConsecutive.
Qed.

(** Where the suffix is alphanumeric the name is valid.  For every branch
    string, the service name that deployCommand derives for a preview
    deployment matches [^[a-z0-9]([a-z0-9-]*[a-z0-9])?$] and has no two
    hyphens in a row, when the random suffix is an 8-character lowercase
    alphanumeric string and the configured base name is over the alphabet
    [[a-z0-9-]] once lower-cased, which is what the init prompt accepts;
    the lower-casing of the branch may be any function. *)
Lemma preview_service_name_valid (L : Lowercasing)
    (configured branchName uniqueId : jsstring) (isProduction isPreview : bool) :
  overNameAlphabet (toLowerCase L configured) = true ->
  isSuffix8 uniqueId = true ->
  snd (resolveService L configured isProduction isPreview branchName uniqueId)
    = Preview ->
  matchesServiceNamePattern
    (fst (resolveService L configured isProduction isPreview branchName uniqueId))
    = true
  /\ noConsecutiveHyphens
       (fst (resolveService L configured isProduction isPreview branchName uniqueId))
     = true.
Proof.
  intros Hbase Hid. unfold resolveService.
  destruct isProduction; [done|].
  destruct (isPreview || negb (bool_decide (branchName = main))); [|done].
  intros _. simpl.
  apply previewServiceName_valid; [done | apply sanitizeBranchName_alphabet | done].
Qed.

Example preview_name_of_mixed_case_input :
  resolveService asciiLowercasing (js "My-App") false false
    (js "Feature/--User_Auth--") (js "a1b2c3d4")
  = (js "my-app-feature-user-auth-a1b2c3d4", Preview).
Proof. reflexivity. Qed.

Lemma preview_service_name_valid_witness :
  matchesServiceNamePattern
    (fst (resolveService asciiLowercasing (js "My-App") false false
            (js "Feature/--User_Auth--") (js "a1b2c3d4"))) = true
  /\ noConsecutiveHyphens
       (fst (resolveService asciiLowercasing (js "My-App") false false
               (js "Feature/--User_Auth--") (js "a1b2c3d4"))) = true.
Proof.
  apply (preview_service_name_valid asciiLowercasing (js "My-App")
           (js "Feature/--User_Auth--") (js "a1b2c3d4") false false);
    reflexivity.
Defined.

Lemma toLowerCase_name_alphabet (L : Lowercasing) (s : jsstring) :
  overNameAlphabet s = true -> toLowerCase L s = s.
Proof.
  unfold overNameAlphabet. intros H.
  assert (Hall : forall c, In c s -> isAscii c = true /\ lowerAscii c = c).
  { intros c Hc. apply nameChar_lowerAscii.
    by apply (proj1 (forallb_forall _ _) H). }
  rewrite toLowerCase_ascii.
  - clear H. induction s as [|c s IH]; simpl; [done|].
    rewrite (proj2 (Hall c (or_introl eq_refl))). f_equal.
    apply IH. intros d Hd. apply Hall. by right.
  - apply forallb_forall. intros c Hc. by apply Hall.
Qed.

Lemma resolveService_production (L : Lowercasing)
    (configured branchName uniqueId : jsstring) (isProduction isPreview : bool) :
  snd (resolveService L configured isProduction isPreview branchName uniqueId)
    = Production
  <-> isProduction = true \/ (isPreview = false /\ branchName = main).
Proof.
  unfold resolveService. destruct isProduction; simpl; [by intuition|].
  destruct isPreview; simpl; [by intuition|].
  destruct (bool_decide_reflect (branchName = main)); simpl; intuition congruence.
Qed.

(** C9, as the code has it.  When production is resolved (requested, or the
    branch is [main] and no preview is requested) the service name is the
    configured base name lower-cased; it is exactly the configured base
    name when that name is over [[a-z0-9-]], the alphabet the init prompt
    accepts.  Nothing else is applied. *)
Theorem production_service_name (L : Lowercasing)
    (configured branchName uniqueId : jsstring) (isProduction isPreview : bool) :
  isProduction = true \/ (isPreview = false /\ branchName = main) ->
  resolveService L configured isProduction isPreview branchName uniqueId
    = (toLowerCase L configured, Production)
  /\ (overNameAlphabet configured = true ->
      resolveService L configured isProduction isPreview branchName uniqueId
        = (configured, Production)).
Proof.
  intros H.
  assert (E : resolveService L configured isProduction isPreview branchName uniqueId
              = (toLowerCase L configured, Production)).
  { unfold resolveService. destruct H as [-> | [-> ->]]; [done|].
    destruct isProduction; [done|]. reflexivity. }
  split; [done|]. intros Hb. by rewrite E, toLowerCase_name_alphabet.
Qed.

Lemma production_service_name_witness :
  resolveService asciiLowercasing (js "my-app") false false main (js "a1b2c3d4")
    = (js "my-app", Production).
Proof.
  apply (production_service_name asciiLowercasing (js "my-app") main
           (js "a1b2c3d4") false false).
  - right. split; reflexivity.
  - reflexivity.
Defined.

(** C9 as stated fails: a configured name with capital letters is not used
    unchanged. *)
Lemma production_service_name_lowercased :
  snd (resolveService asciiLowercasing (js "MyApp") true false main (js "a1b2c3d4"))
    = Production
  /\ fst (resolveService asciiLowercasing (js "MyApp") true false main (js "a1b2c3d4"))
     = js "myapp"
  /\ fst (resolveService asciiLowercasing (js "MyApp") true false main (js "a1b2c3d4"))
     <> js "MyApp".
Proof.
  split; [reflexivity|]. split; [reflexivity|].
  intros H. vm_compute in H. discriminate H.
Qed.

(** ** Environment loader *)

Lemma split_cons_inv (sep : N) (s : jsstring) :
  exists w ws, split sep s = w :: ws.
Proof.
  destruct s as [|c s]; simpl; [by eexists _, _|].
  destruct (c =? sep); [by eexists _, _|].
  destruct (split sep s); by eexists _, _.
Qed.

(** [split] followed by [join] gives the string back. *)
Lemma join_split (sep : N) (s : jsstring) : join sep (split sep s) = s.
Proof.
  induction s as [|c s IH]; simpl; [done|].
  destruct (split_cons_inv sep s) as (w & ws & E). rewrite E in *.
  destruct (c =? sep) eqn:Hc.
  - apply N.eqb_eq in Hc as ->. revert IH. simpl. by intros ->.
  - revert IH. simpl. destruct ws; by intros <-.
Qed.

(** The first element of [split] is the text before the first separator,
    the others are the pieces of the text after it. *)
Lemma split_cutAtFirst (sep : N) (s : jsstring) :
  split sep s
  = (cutAtFirst sep s).1
    :: match (cutAtFirst sep s).2 with
       | Some v => split sep v
       | None => []
       end.
Proof.
  induction s as [|c s IH]; simpl; [done|].
  destruct (c =? sep); simpl; [done|].
  rewrite IH. by destruct (cutAtFirst sep s).
Qed.

(** What the source computes with [split('=')] and [join('=')] is the cut
    at the first [=]. *)
Lemma key_and_value_of_split (t : jsstring) :
  exists valueParts,
    split equals t = (cutAtFirst equals t).1 :: valueParts
    /\ join equals valueParts = default [] (cutAtFirst equals t).2.
Proof.
  rewrite split_cutAtFirst. eexists. split; [done|].
  destruct (cutAtFirst equals t).2; simpl; [apply join_split | done].
Qed.

Lemma slice_1_m1_wrapped (q q' : N) (inner : jsstring) :
  slice_1_m1 (q :: inner ++ [q']) = inner.
Proof.
  unfold slice_1_m1. cbn [length drop].
  replace (S (length (inner ++ [q'])) - 2)%nat with (length inner)
    by (rewrite length_app; simpl; lia).
  by rewrite drop_0, take_app_length.
Qed.

Lemma endsWith_snoc (d q' : N) (s : jsstring) :
  endsWith d (s ++ [q']) = (q' =? d).
Proof. unfold endsWith. by rewrite last_snoc. Qed.

(** The quote test with [slice(1, -1)] removes one matching wrapping pair,
    except on a value that is a single quote character, which it empties. *)
Lemma stripQuotes_unwrapQuotes (v : jsstring) :
  match v with
  | [q] => isQuote q = false
  | _ => True
  end ->
  stripQuotes v = unwrapQuotes v.
Proof.
  unfold stripQuotes, unwrapQuotes. destruct v as [|q rest]; [done|].
  destruct (reverse rest) as [|q' inner] eqn:Hrev.
  - apply (f_equal reverse) in Hrev. rewrite reverse_involutive in Hrev.
    subst rest. simpl. unfold isQuote, endsWith. simpl. intros H.
    apply orb_false_iff in H as [-> ->]. done.
  - intros _. apply (f_equal reverse) in Hrev.
    rewrite reverse_involutive, reverse_cons in Hrev. subst rest.
    change (q :: reverse inner ++ [q']) with ((q :: reverse inner) ++ [q']).
    rewrite !endsWith_snoc. simpl.
    rewrite slice_1_m1_wrapped. unfold isQuote.
    destruct (q =? dquote) eqn:H1, (q =? squote) eqn:H2,
             (q' =? dquote) eqn:H3, (q' =? squote) eqn:H4,
             (q =? q') eqn:H5; simpl; try done;
      unfold dquote, squote in *; unit_arith.
Qed.

(** One step of the source is one step of the worded loader, the
    incidental lines apart. *)
Lemma processLine_lineBinding (m : gmap jsstring jsstring) (line : jsstring) :
  incidental line = false ->
  processLine m line = applyBinding m (lineBinding true line).
Proof.
  unfold incidental, processLine, lineBinding.
  destruct (trim line) as [|c t'] eqn:Ht; [done|].
  change (truthy (c :: t')) with true. cbn [startsWith andb].
  destruct (c =? hash); [done|]. cbn [negb].
  destruct (key_and_value_of_split (c :: t')) as (valueParts & -> & ->).
  destruct (cutAtFirst equals (c :: t')) as [k v] eqn:Hcut. cbn [fst snd andb].
  destruct (truthy k); [|done]. cbn [negb applyBinding].
  intros H. apply orb_false_iff in H as [Hk Hv].
  unfold setProperty. rewrite Hk.
  rewrite stripQuotes_unwrapQuotes; [done|].
  destruct v as [v|]; simpl in *; [|done].
  by destruct (trim v) as [|q [|]].
Qed.


Lemma foldl_processLine (lines : list jsstring) (m : gmap jsstring jsstring) :
  forallb regular lines = true ->
  foldl processLine m lines
  = foldl (fun m line => applyBinding m (lineBinding true line)) m lines.
Proof.
  revert m. induction lines as [|line lines IH]; intros m; simpl; [done|].
  intros H. apply andb_prop in H as [Hl Hr].
  rewrite processLine_lineBinding; [by apply IH|].
  by apply negb_true_iff.
Qed.

Lemma specParse_unfold (envContent : jsstring) :
  specParse true envContent
  = foldl (fun m line => applyBinding m (lineBinding true line)) ∅
      (split newline envContent).
Proof. reflexivity. Qed.

(** Lines that bind other keys do not change the value of [k]. *)
Lemma foldl_bindings_other (k : jsstring) (lines : list jsstring)
    (m : gmap jsstring jsstring) :
  (forall l, In l lines -> fst <$> lineBinding true l <> Some k) ->
  foldl (fun m line => applyBinding m (lineBinding true line)) m lines !! k
  = m !! k.
Proof.
  revert m. induction lines as [|line lines IH]; intros m Hno; simpl; [done|].
  rewrite IH by (intros l Hl; apply Hno; by right).
  specialize (Hno line (or_introl eq_refl)).
  destruct (lineBinding true line) as [[k' v']|]; simpl in *; [|done].
  apply lookup_insert_ne. congruence.
Qed.

(** C8, as the code has it.  parseEnvFile is total and returns the empty
    mapping when the file is missing or cannot be read.  On a content none
    of whose lines is incidental (key [__proto__], or a value that is one
    quote character) it is the loader described in words with one more
    rule, the guard [if (key)]: a line is skipped when it is empty after
    trimming, when its trimmed text starts with [#], or when nothing
    precedes its first [=]; otherwise the line is cut at its first [=], the
    key is trimmed, the value (empty when there is no [=]) is trimmed and
    loses one matching wrapping pair of straight quotes; and the last line
    that binds a key decides its value. *)
Theorem parseEnvFile_spec :
  fst (parseEnvFile NoEnvFile) = ∅
  /\ (forall message, fst (parseEnvFile (UnreadableEnvFile message)) = ∅)
  /\ forall envContent,
       forallb regular (split newline envContent) = true ->
       fst (parseEnvFile (EnvFileContent envContent)) = specParse true envContent
       /\ forall before line after k v,
            split newline envContent = before ++ line :: after ->
            lineBinding true line = Some (k, v) ->
            (forall l, In l after -> fst <$> lineBinding true l <> Some k) ->
            fst (parseEnvFile (EnvFileContent envContent)) !! k = Some v.
Proof.
  split; [done|]. split; [done|]. intros envContent Hreg.
  assert (E : fst (parseEnvFile (EnvFileContent envContent))
              = specParse true envContent).
  { simpl. unfold parseEnvContent. by rewrite foldl_processLine. }
  split; [done|]. intros before line after k v Hsplit Hline Hafter.
  rewrite E, specParse_unfold, Hsplit, foldl_app. simpl.
  rewrite foldl_bindings_other by done.
  rewrite Hline. simpl. apply lookup_insert_eq.
Qed.

Example parse_envSample :
  parseEnvContent envSample
  = <[js "URL" := js "postgres://u:p@h/db?a=b"]>
      (<[js "FLAG" := []]> (<[js "KEY" := js "two"]> ∅)).
Proof. by vm_compute. Qed.

Lemma parseEnvFile_spec_witness :
  fst (parseEnvFile (EnvFileContent envSample)) = specParse true envSample
  /\ fst (parseEnvFile (EnvFileContent envSample)) !! js "KEY" = Some (js "two").
Proof.
  destruct parseEnvFile_spec as (_ & _ & H).
  destruct (H envSample) as [E Hlast]; [by vm_compute|].
  split; [exact E|].
  apply (Hlast
           [js "# settings"; js "  URL = 'postgres://u:p@h/db?a=b' "; [];
            js "KEY=one"; js "=orphan"; js "FLAG"]
           (js "KEY=" ++ [dquote] ++ js "two" ++ [dquote]) []).
  - by vm_compute.
  - by vm_compute.
  - intros l [].
Defined.

(** C8 as stated fails: the line [=v] is not empty, does not start with [#]
    and has the value [v] after its first [=], yet it binds nothing, while
    the loader as worded binds the empty key. *)
Lemma parseEnvContent_skips_empty_key :
  trim (js "=v") = js "=v"
  /\ startsWith hash (js "=v") = false
  /\ specParse false (js "=v") = {[ [] := js "v" ]}
  /\ parseEnvContent (js "=v") = ∅
  /\ parseEnvContent (js "=v") <> specParse false (js "=v").
Proof.
  split; [reflexivity|]. split; [reflexivity|].
  assert (E1 : specParse false (js "=v") = {[ [] := js "v" ]}) by by vm_compute.
  assert (E2 : parseEnvContent (js "=v") = ∅) by by vm_compute.
  split; [exact E1|]. split; [exact E2|].
  rewrite E1, E2. intros H.
  apply (f_equal (fun m : gmap jsstring jsstring => m !! [])) in H.
  by rewrite lookup_empty, lookup_singleton_eq in H.
Qed.

(** The two incidental cases, for the record. *)
Example lone_quote_value :
  parseEnvContent (js "A=" ++ [dquote]) = {[ js "A" := [] ]}.
Proof. by vm_compute. Qed.

Example proto_key : parseEnvContent (js "__proto__=x") = ∅.
Proof. by vm_compute. Qed.

(** ** State store *)

(** C10. A project configuration file that exists but does not parse makes
    readProjectConfig throw; a deployment history or a global preferences
    file in the same condition makes its reader return the empty default,
    [{ deployments: [] }] and [{}], without throwing. *)
Theorem unparseable_documents (p : Proc) (e : jsstring) :
  (projectConfig (disk p) = Malformed e ->
   readProjectConfig p
   = (Thrown (newError (js "Error reading project config: " ++ e)), p))
  /\ (history (disk p) = Malformed e ->
      (readDeploymentHistory p).1 = Normal {| deployments := [] |})
  /\ (globalConfig (disk p) = Some (Malformed e) ->
      (readGlobalConfig p).1 = Normal {| lastUsedProject := None |}).
Proof.
  unfold readProjectConfig, readDeploymentHistory, readGlobalConfig,
    ensureGlobalConfigDir, bind, getDisk, ret, throw.
  repeat split; intros H; cbn; rewrite H; cbn; rewrite ?H; reflexivity.
Qed.

Lemma unparseable_documents_witness :
  (readProjectConfig corruptProc).1
  = Thrown (newError (js "Error reading project config: Unexpected end of JSON input"))
  /\ (readDeploymentHistory corruptProc).1 = Normal {| deployments := [] |}
  /\ (readGlobalConfig corruptProc).1 = Normal {| lastUsedProject := None |}.
Proof.
  destruct (unparseable_documents corruptProc (js "Unexpected end of JSON input"))
    as (H1 & H2 & H3).
  split; [by rewrite H1 | split; [by apply H2 | by apply H3]].
Defined.

(** What a reader sees after the two mutations. *)
Lemma currentHistory_addDeployment (d : Deployment.t) (now : jsstring) (p : Proc) :
  currentHistory (addDeployment d now p).2
  = if writable (disk p)
    then currentHistory p ++ [Deployment.withTimestamp d now]
    else currentHistory p.
Proof.
  unfold currentHistory, addDeployment, writeDeploymentHistory,
    readDeploymentHistory, bind, getDisk, putDisk, say, ret.
  destruct p as [[g c h [w|]] cs out]; destruct h; reflexivity.
Qed.

Lemma currentHistory_removeDeployment (n : jsstring) (p : Proc) :
  currentHistory (removeDeployment n p).2
  = if writable (disk p)
    then filter (fun d => Deployment.serviceName d ≠ n) (currentHistory p)
    else currentHistory p.
Proof.
  unfold currentHistory, removeDeployment, writeDeploymentHistory,
    readDeploymentHistory, bind, getDisk, putDisk, say, ret.
  destruct p as [[g c h [w|]] cs out]; destruct h; reflexivity.
Qed.

Lemma writable_addDeployment d now p :
  writable (disk (addDeployment d now p).2) = writable (disk p).
Proof.
  unfold addDeployment, writeDeploymentHistory,
    readDeploymentHistory, bind, getDisk, putDisk, say, ret.
  destruct p as [[g c h [w|]] cs out]; destruct h; reflexivity.
Qed.

Lemma writable_removeDeployment n p :
  writable (disk (removeDeployment n p).2) = writable (disk p).
Proof.
  unfold removeDeployment, writeDeploymentHistory,
    readDeploymentHistory, bind, getDisk, putDisk, say, ret.
  destruct p as [[g c h [w|]] cs out]; destruct h; reflexivity.
Qed.

Lemma runOps_cons op ops p : (runOps (op :: ops) p).2 = (runOps ops (runOp op p).2).2.
Proof.
  simpl. unfold bind. destruct op; simpl.
  - unfold addDeployment, writeDeploymentHistory,
      readDeploymentHistory, bind, getDisk, putDisk, say, ret.
    destruct p as [[g c h [w|]] cs out]; destruct h; reflexivity.
  - unfold removeDeployment, writeDeploymentHistory,
      readDeploymentHistory, bind, getDisk, putDisk, say, ret.
    destruct p as [[g c h [w|]] cs out]; destruct h; reflexivity.
Qed.

Lemma names_filter (n : jsstring) (h : list Deployment.t) :
  names (filter (fun d => Deployment.serviceName d ≠ n) h)
  = filter (fun m => m ≠ n) (names h).
Proof.
  induction h as [|d h IH]; [done|].
  change (names (d :: h)) with (Deployment.serviceName d :: names h).
  rewrite !filter_cons. destruct (decide (Deployment.serviceName d ≠ n)); [|done].
  change (names (d :: ?l)) with (Deployment.serviceName d :: names l).
  by rewrite IH.
Qed.

Lemma runOp_preserves_NoDup (op : HistoryOp) (p : Proc) :
  NoDup (names (currentHistory p)) ->
  addsAreFresh [op] p = true ->
  NoDup (names (currentHistory (runOp op p).2)).
Proof.
  intros Hnd Hfresh. destruct op as [d now | n]; simpl in *.
  - rewrite currentHistory_addDeployment. destruct (writable (disk p)); [|done].
    rewrite andb_true_r in Hfresh. apply bool_decide_eq_true in Hfresh.
    unfold names in *. rewrite fmap_app. simpl.
    apply NoDup_app. split; [done|]. split.
    + intros x Hx Hx'. apply list_elem_of_singleton in Hx'. by subst x.
    + apply NoDup_singleton.
  - rewrite currentHistory_removeDeployment. destruct (writable (disk p)); [|done].
    rewrite names_filter. by apply NoDup_filter.
Qed.

Lemma runOps_preserve_NoDup (ops : list HistoryOp) (p : Proc) :
  NoDup (names (currentHistory p)) ->
  addsAreFresh ops p = true ->
  NoDup (names (currentHistory (runOps ops p).2)).
Proof.
  revert p. induction ops as [|op ops IH]; intros p Hnd Hfresh; [done|].
  rewrite runOps_cons. cbn [addsAreFresh] in Hfresh.
  apply andb_prop in Hfresh as [Hop Hrest].
  apply IH; [|done]. apply runOp_preserves_NoDup; [done|].
  cbn [addsAreFresh]. by rewrite Hop.
Qed.

(** C2, as the code has it.  addDeployment appends and supersedes nothing.
    Service names are pairwise distinct after every sequence of additions
    and removals, started from the empty history, in which no addition
    names a service that the history holds at that moment; and a removal
    that reaches the disk leaves no record of the removed name. *)
Theorem history_names_unique (cfg : file Document) (w : option jsstring)
    (ops : list HistoryOp) :
  addsAreFresh ops (freshProc cfg w) = true ->
  let p := (runOps ops (freshProc cfg w)).2 in
  NoDup (names (currentHistory p))
  /\ (forall d now,
        currentHistory (addDeployment d now p).2
        = if writable (disk p)
          then currentHistory p ++ [Deployment.withTimestamp d now]
          else currentHistory p)
  /\ (forall n,
        writable (disk p) = true ->
        n ∉ names (currentHistory (removeDeployment n p).2)).
Proof.
  intros Hfresh p. split; [|split].
  - apply runOps_preserve_NoDup; [|done]. apply NoDup_nil_2.
  - intros d now. apply currentHistory_addDeployment.
  - intros n Hw. rewrite currentHistory_removeDeployment, Hw.
    rewrite names_filter. intros Hn. by apply list_elem_of_filter in Hn as [Hn _].
Qed.

Lemma history_names_unique_witness :
  NoDup (names (currentHistory
                  (runOps [AddRecord (sampleDeployment (js "app")) (js "t1");
                           AddRecord (sampleDeployment (js "app-x-a1b2c3d4")) (js "t2");
                           RemoveRecord (js "app");
                           AddRecord (sampleDeployment (js "app")) (js "t3")]
                     (freshProc Absent None)).2)).
Proof.
  apply (history_names_unique Absent None
           [AddRecord (sampleDeployment (js "app")) (js "t1");
            AddRecord (sampleDeployment (js "app-x-a1b2c3d4")) (js "t2");
            RemoveRecord (js "app");
            AddRecord (sampleDeployment (js "app")) (js "t3")]).
  by vm_compute.
Defined.

(** C2 as stated fails: two deployments of the same service leave two
    records of the same name. *)
Lemma history_names_repeat :
  names (currentHistory
           (runOps [AddRecord (sampleDeployment (js "app")) (js "t1");
                    AddRecord (sampleDeployment (js "app")) (js "t2")]
              (freshProc Absent None)).2)
  = [js "app"; js "app"]
  /\ ~ NoDup (names (currentHistory
                       (runOps [AddRecord (sampleDeployment (js "app")) (js "t1");
                                AddRecord (sampleDeployment (js "app")) (js "t2")]
                          (freshProc Absent None)).2)).
Proof.
  assert (E : names (currentHistory
                (runOps [AddRecord (sampleDeployment (js "app")) (js "t1");
                         AddRecord (sampleDeployment (js "app")) (js "t2")]
                   (freshProc Absent None)).2)
              = [js "app"; js "app"]) by reflexivity.
  split; [exact E|]. rewrite E. intros H.
  apply NoDup_cons in H as [H _]. apply H. by left.
Qed.

Lemma filter_other_names (n : jsstring) (h : list Deployment.t) :
  n ∉ names h ->
  filter (fun d => Deployment.serviceName d ≠ n) h = h.
Proof.
  induction h as [|d h IH]; [done|].
  change (names (d :: h)) with (Deployment.serviceName d :: names h).
  intros Hn. apply not_elem_of_cons in Hn as [Hd Hh].
  rewrite filter_cons. destruct (decide (Deployment.serviceName d ≠ n)) as [_|Hne].
  - by rewrite IH.
  - destruct Hne. congruence.
Qed.

(** C3, as the code has it.  addDeployment of a record followed by
    removeDeployment of its name gives back the history it started from,
    entries and order, when that history holds no record of this name. *)
Theorem add_then_remove (p : Proc) (r : Deployment.t) (now : jsstring) :
  Deployment.serviceName r ∉ names (currentHistory p) ->
  currentHistory
    (runOps [AddRecord r now; RemoveRecord (Deployment.serviceName r)] p).2
  = currentHistory p.
Proof.
  intros Hfresh. rewrite !runOps_cons. cbn [runOps runOp ret snd].
  rewrite currentHistory_removeDeployment, writable_addDeployment,
    currentHistory_addDeployment.
  destruct (writable (disk p)); [|done].
  rewrite filter_app, filter_other_names by done.
  rewrite filter_cons. destruct (decide _) as [Hne|_]; [|by rewrite app_nil_r].
  by destruct Hne.
Qed.

Lemma add_then_remove_witness :
  currentHistory
    (runOps [AddRecord (sampleDeployment (js "app-x-a1b2c3d4")) (js "t2");
             RemoveRecord (js "app-x-a1b2c3d4")]
       (procWithHistory [sampleDeployment (js "app")])).2
  = [sampleDeployment (js "app")].
Proof.
  apply (add_then_remove (procWithHistory [sampleDeployment (js "app")])
           (sampleDeployment (js "app-x-a1b2c3d4")) (js "t2")).
  vm_compute. intros H. apply list_elem_of_singleton in H. discriminate H.
Defined.

(** C3 as stated fails: when the history already holds a record of the
    name, the removal takes that record away too. *)
Lemma add_then_remove_loses_earlier_record :
  currentHistory (procWithHistory [sampleDeployment (js "app")])
  = [sampleDeployment (js "app")]
  /\ currentHistory
       (runOps [AddRecord (sampleDeployment (js "app")) (js "t2");
                RemoveRecord (js "app")]
          (procWithHistory [sampleDeployment (js "app")])).2
     = []
  /\ currentHistory
       (runOps [AddRecord (sampleDeployment (js "app")) (js "t2");
                RemoveRecord (js "app")]
          (procWithHistory [sampleDeployment (js "app")])).2
     <> currentHistory (procWithHistory [sampleDeployment (js "app")]).
Proof. split; [reflexivity|]. split; [reflexivity|]. discriminate. Qed.

(** ** Commands *)

Section NoThrowFacts.
Context {A B : Type}.

Lemma NoThrow_ret (a : A) : NoThrow (ret a).
Proof. by intros p e. Qed.

Lemma NoThrow_bind (m : M A) (k : A -> M B) :
  NoThrow m -> (forall a, NoThrow (k a)) -> NoThrow (bind m k).
Proof.
  intros Hm Hk p e. unfold bind. specialize (Hm p).
  destruct (m p) as [[a | e' | ] p']; simpl in *.
  - apply Hk.
  - by destruct (Hm e').
  - done.
Qed.

Lemma NoThrow_tryCatch (m : M A) (handler : JsError -> M A) :
  (forall e, NoThrow (handler e)) -> NoThrow (tryCatch m handler).
Proof.
  intros Hh p e. unfold tryCatch. destruct (m p) as [[a | e' | ] p'].
  - done.
  - apply Hh.
  - done.
Qed.

End NoThrowFacts.

Lemma NoThrow_say (m : Message) : NoThrow (say m).
Proof. by intros p e. Qed.

Lemma NoThrow_record (c : Call) : NoThrow (record c).
Proof. by intros p e. Qed.

Lemma NoThrow_getDisk : NoThrow getDisk.
Proof. by intros p e. Qed.

Lemma NoThrow_putDisk (d : Disk) : NoThrow (putDisk d).
Proof. by intros p e. Qed.

Lemma NoThrow_pending {A} : NoThrow (fun p => (@Pending A, p)).
Proof. by intros p e. Qed.

(** The proof of [NoThrow] follows the shape of the program. *)
Ltac no_throw :=
  repeat first
    [ progress intros
    | apply NoThrow_ret | apply NoThrow_say | apply NoThrow_record
    | apply NoThrow_getDisk | apply NoThrow_putDisk | apply NoThrow_pending
    | apply NoThrow_tryCatch
    | apply NoThrow_bind
    | match goal with
      | |- NoThrow (if ?b then _ else _) => destruct b
      | |- NoThrow (match ?x with _ => _ end) => destruct x
      | |- NoThrow (foldr _ _ ?l) => induction l; cbn [foldr]
      | H : NoThrow ?m |- NoThrow ?m => exact H
      end ].

Lemma NoThrow_readDeploymentHistory : NoThrow readDeploymentHistory.
Proof. unfold readDeploymentHistory. no_throw. Qed.

Lemma NoThrow_writeDeploymentHistory h : NoThrow (writeDeploymentHistory h).
Proof. unfold writeDeploymentHistory. no_throw. Qed.

Lemma NoThrow_addDeployment d now : NoThrow (addDeployment d now).
Proof.
  unfold addDeployment. apply NoThrow_bind; [apply NoThrow_readDeploymentHistory|].
  intros h. apply NoThrow_bind; [apply NoThrow_writeDeploymentHistory | no_throw].
Qed.

Lemma NoThrow_removeDeployment n : NoThrow (removeDeployment n).
Proof.
  unfold removeDeployment. apply NoThrow_bind; [apply NoThrow_readDeploymentHistory|].
  intros h. apply NoThrow_bind; [apply NoThrow_writeDeploymentHistory | no_throw].
Qed.

Lemma NoThrow_getDeployment n : NoThrow (getDeployment n).
Proof.
  unfold getDeployment. apply NoThrow_bind; [apply NoThrow_readDeploymentHistory|].
  no_throw.
Qed.

Section CommandFacts.
Context (L : Lowercasing) (W : World).

Lemma NoThrow_exec c : NoThrow (exec W c).
Proof. unfold exec. no_throw. Qed.

Ltac no_throw_cmd :=
  repeat first
    [ apply NoThrow_exec | apply NoThrow_addDeployment
    | apply NoThrow_removeDeployment | apply NoThrow_getDeployment
    | apply NoThrow_readDeploymentHistory
    | progress no_throw ].

Lemma NoThrow_deployFailed e : NoThrow (deployFailed e).
Proof. unfold deployFailed. no_throw_cmd. Qed.

Lemma NoThrow_requestFailed e : NoThrow (requestFailed e).
Proof. unfold requestFailed. no_throw_cmd. Qed.

Lemma NoThrow_removeFailed n e : NoThrow (removeFailed n e).
Proof. unfold removeFailed. no_throw_cmd. Qed.

Lemma NoThrow_getCurrentBranch : NoThrow (getCurrentBranch W).
Proof. unfold getCurrentBranch. no_throw_cmd. Qed.

(** The common opening of the four handlers. *)
Lemma opening (k : Document -> M unit) (p : Proc) :
  (let* initialized := isProjectInitialized in
   if negb initialized then notInitialized
   else
     let* document := readProjectConfig in
     k document) p
  = match projectConfig (disk p) with
    | Absent => notInitialized p
    | Malformed e =>
        (Thrown (newError (js "Error reading project config: " ++ e)), p)
    | Stored document => k document p
    end.
Proof.
  destruct p as [[g pc h w] cs out]. by destruct pc.
Qed.

(** Once the document is an object, reading it goes through. *)
Lemma bind_properties {A} (name : jsstring) (config : Config.t)
    (k : Config.t -> M A) :
  (let* fields := properties name (Properties config) in k fields) = k config.
Proof. reflexivity. Qed.

Ltac unfold_steps :=
  unfold checkDockerRunning, checkGcloudAuth, buildDockerImage, pushDockerImage,
    tagDockerImage, notInitialized, orElse, streamLogs, getDeploymentOf.

Lemma removeCommand_opening deploymentName options p :
  removeCommand W deploymentName options p
  = match projectConfig (disk p) with
    | Absent => notInitialized p
    | Malformed e =>
        if truthy deploymentName
        then (Thrown (newError (js "Error reading project config: " ++ e)), p)
        else say (Log (js "Error: Deployment name is required.")) p
    | Stored document =>
        if truthy deploymentName
        then
          (let* config := properties (js "serviceName") document in
           (if equalsString deploymentName (Config.serviceName config) then
              say (Log (js "Warning: This is the production deployment!"))
            else ret tt) ;;
           let* found := getDeployment deploymentName in
           (match found with
            | Some _ => ret tt
            | None =>
                say (Log (js "Note: Deployment not found in local history, but may exist in Cloud Run."))
            end) ;;
           let* go :=
             if yes options then ret true
             else record Prompt ;; ret (confirmed W) in
           if negb go then say (Log (js "Deletion cancelled."))
           else
             tryCatch
               (let* service := getService W deploymentName in
                match service with
                | None =>
                    say (Warn (js "Service not found in Cloud Run")) ;;
                    removeDeployment deploymentName ;;
                    say (Log (js "Removed from local deployment history."))
                | Some _ =>
                    deleteService W deploymentName ;;
                    removeDeployment deploymentName ;;
                    say (Log (js "Deployment removed successfully!"))
                end)
               (removeFailed deploymentName)) p
        else say (Log (js "Error: Deployment name is required.")) p
    end.
Proof.
  unfold removeCommand. destruct p as [[g pc h w] cs out].
  by destruct pc, (truthy deploymentName).
Qed.

(** The errors that leave a handler are those of [escapes]: every other
    failure is caught, printed and followed by a return. *)
Lemma handler_status (i : Invocation) (p : Proc) :
  match (handler L W i p).1 with
  | Thrown _ => escapes i (projectConfig (disk p)) = true
  | _ => escapes i (projectConfig (disk p)) = false
  end.
Proof.
  assert (Hno : forall (m : M unit) q, NoThrow m ->
                  match (m q).1 with Thrown _ => False | _ => True end).
  { intros m q H. specialize (H q). destruct (m q).1; [done | by destruct (H error) | done]. }
  assert (Hfin : forall (m : M unit) q b, NoThrow m ->
                  match (m q).1 with Thrown _ => b = true | _ => false = false end).
  { intros m q b H. specialize (Hno m q H). by destruct (m q).1. }
  destruct i as [options | options | options | deploymentName options];
    cbn [handler].
  - unfold deployCommand. rewrite opening.
    destruct (projectConfig (disk p)) as [|e|[|config]]; [done..|].
    cbn [escapes]. unfold bind at 1. cbn [properties ret].
    destruct (Config.serviceName config) as [name| | |shown isTruthy];
      [|done..].
    cbn [isString negb]. apply Hfin. unfold_steps.
    pose proof NoThrow_getCurrentBranch.
    apply NoThrow_bind; [cbn [receiverOfToLowerCase]; apply NoThrow_ret|].
    no_throw_cmd.
  - unfold listCommand. rewrite opening.
    destruct (projectConfig (disk p)) as [|e|document]; [done..|].
    replace (escapes (ListDeployments options) (Stored document)) with false
      by by destruct document.
    apply Hfin. apply NoThrow_tryCatch. intros error. apply NoThrow_requestFailed.
  - unfold logsCommand. rewrite opening.
    destruct (projectConfig (disk p)) as [|e|[|config]]; [done..| |].
    + cbn [escapes dereferences]. unfold isNamed.
      destruct (deployment options) as [v|]; [destruct (truthy v)|];
        cbn [negb]; try done.
      apply (Hfin _ p false). unfold_steps.
      apply NoThrow_bind; [apply NoThrow_ret|]. intros serviceName.
      apply NoThrow_bind; [destruct serviceName; no_throw_cmd|]. intros found.
      match goal with |- NoThrow (if ?b then _ else _) => destruct b end;
        [apply NoThrow_say|].
      apply NoThrow_tryCatch. intros error. apply NoThrow_requestFailed.
    + cbn [escapes]. apply Hfin. unfold_steps.
      apply NoThrow_bind;
        [destruct (deployment options) as [v|]; [destruct (truthy v)|];
         cbn [properties]; no_throw_cmd|].
      intros serviceName.
      apply NoThrow_bind; [destruct serviceName; no_throw_cmd|]. intros found.
      match goal with |- NoThrow (if ?b then _ else _) => destruct b end;
        [apply NoThrow_say|].
      apply NoThrow_tryCatch. intros error. apply NoThrow_requestFailed.
  - rewrite removeCommand_opening.
    destruct (projectConfig (disk p)) as [|e|[|config]];
      cbn [escapes readsConfig dereferences].
    + by destruct (truthy deploymentName).
    + by destruct (truthy deploymentName).
    + by destruct (truthy deploymentName).
    + destruct (truthy deploymentName); [|done].
      apply (Hfin _ _ false). unfold_steps. cbn [properties]. no_throw_cmd.
Qed.

Lemma run_status (i : Invocation) (p : Proc) :
  (run L W i p).1
  = match (handler L W i p).1 with
    | Thrown _ => 1
    | _ => 0
    end.
Proof. unfold run. by destruct (handler L W i p) as [[a | e | ] p']. Qed.

(** The exit status of deploy, list, logs and remove is 1 exactly on the
    states of gcp-deploy.json of [escapes]; it is 0 in every other
    execution, also when the project is not initialized or when a
    pre-flight check, the build, the push, the deployment, the remote
    listing, the log request, getService or deleteService fails: those
    failures are printed and the handler returns.  (The history file is
    absent, does not parse or has the shape the tool writes.) *)
Lemma exit_status (i : Invocation) (p : Proc) :
  (run L W i p).1 = if escapes i (projectConfig (disk p)) then 1 else 0.
Proof.
  rewrite run_status. pose proof (handler_status i p) as H.
  destruct (handler L W i p).1; by rewrite H.
Qed.

Ltac subset_of_probes :=
  let x := fresh in let Hx := fresh in
  intros x Hx; cbn [app] in Hx;
  repeat (apply elem_of_cons in Hx as [-> | Hx]);
  [repeat constructor .. | by apply elem_of_nil in Hx].

(** [options.branch || getCurrentBranch()] makes at most one call. *)
Lemma branch_step (options : DeployOptions) d cs out :
  exists b made,
    orElse (branch options) (getCurrentBranch W) ret
      {| disk := d; calls := cs; console := out |}
    = (Normal b, {| disk := d; calls := cs ++ made; console := out |})
    /\ (made = [] \/ made = [Exec GitRevParse]).
Proof.
  unfold orElse, getCurrentBranch, exec, bind, record, ret.
  destruct (branch options) as [v|]; [destruct (truthy v)|]; cbn.
  - exists v, []. by rewrite app_nil_r; auto.
  - destruct (execSync W GitRevParse);
      (eexists _, _; split; [reflexivity | by right]).
  - destruct (execSync W GitRevParse);
      (eexists _, _; split; [reflexivity | by right]).
Qed.

(** The two probes as the code has them.  When [docker info] fails, or
    [gcloud auth list] ends with a status that is not 0, deployCommand
    leaves the disk (hence the deployment history) as it was, and the only
    calls it makes are among [git rev-parse], [docker info] and
    [gcloud auth list]: nothing is built, tagged, pushed or deployed. *)
Lemma preflight_failure_aborts (options : DeployOptions) (p : Proc) :
  succeeded (execSync W DockerInfo) = false
  \/ succeeded (execSync W GcloudAuthList) = false ->
  disk (deployCommand L W options p).2 = disk p
  /\ exists made,
       calls (deployCommand L W options p).2 = calls p ++ made
       /\ made ⊆ [Exec GitRevParse; Exec DockerInfo; Exec GcloudAuthList]
       /\ existsb buildsPushesOrDeploys made = false.
Proof.
  intros Hfail.
  assert (H : exists c made out',
             deployCommand L W options p
             = (c, {| disk := disk p; calls := calls p ++ made; console := out' |})
             /\ made ⊆ [Exec GitRevParse; Exec DockerInfo; Exec GcloudAuthList]
             /\ existsb buildsPushesOrDeploys made = false).
  { unfold deployCommand. rewrite opening. destruct p as [d cs out].
    cbn [disk calls console].
    destruct (projectConfig d) as [|e|[|config]];
      [| | |unfold bind at 1; cbn [properties ret];
            destruct (Config.serviceName config) as [name| | |shown isTruthy]].
    1-3, 5-7: eexists _, [], _; rewrite app_nil_r;
      (split; [reflexivity|]); (split; [apply list_subseteq_nil | done]).
    - unfold bind at 1. cbn [receiverOfToLowerCase ret]. unfold bind at 1.
      destruct (branch_step options d cs out) as (b & made0 & -> & Hmade0).
      destruct (resolveService _ _ _ _ _ _) as [serviceName deploymentType].
      unfold bind at 1, checkDockerRunning, exec, bind at 1, record, bind at 1, ret.
      cbn [fst snd disk calls console].
      destruct (execSync W DockerInfo) eqn:Hd; cbn [succeeded negb].
      + unfold bind at 1, checkGcloudAuth, exec, bind at 1, record, bind at 1, ret.
        cbn [fst snd disk calls console].
        destruct (execSync W GcloudAuthList) eqn:Ha; cbn [succeeded negb].
        * by destruct Hfail.
        * eexists _, (made0 ++ [Exec DockerInfo; Exec GcloudAuthList]), _.
          split; [unfold say; cbn; by rewrite <- !app_assoc|].
          destruct Hmade0 as [-> | ->]; (split; [subset_of_probes | done]).
      + eexists _, (made0 ++ [Exec DockerInfo]), _.
        split; [unfold say; cbn; by rewrite <- !app_assoc|].
        destruct Hmade0 as [-> | ->]; (split; [subset_of_probes | done]). }
  destruct H as (c & made & out' & -> & Hsub & Hnone).
  split; [done|]. by exists made.
Qed.

(** What removeCommand does to the history once it has a name, a
    configuration and the confirmation: it returns normally in every case,
    and it calls removeDeployment exactly when [cleansHistory] says so. *)
Lemma removeCommand_history deploymentName options config p :
  projectConfig (disk p) = Stored (Properties config) ->
  truthy deploymentName = true ->
  yes options || confirmed W = true ->
  (removeCommand W deploymentName options p).1 = Normal tt
  /\ currentHistory (removeCommand W deploymentName options p).2
     = if cleansHistory W deploymentName && writable (disk p)
       then filter (fun d => Deployment.serviceName d ≠ deploymentName)
              (currentHistory p)
       else currentHistory p.
Proof.
  intros Hpc Hname Hgo. rewrite removeCommand_opening, Hpc, Hname.
  rewrite bind_properties.
  unfold cleansHistory, reads404, getService, deleteService.
  destruct p as [[g pc h w] cs out]. cbn [disk projectConfig writable] in *.
  destruct (apiGetService W deploymentName) as [e1 | service];
    [destruct (code e1 =? 5) | destruct (apiDeleteService W deploymentName) as [e2 | []]];
    repeat match goal with
      | |- context [includes ?a ?b] =>
          let E := fresh in destruct (includes a b) eqn:E
      end;
    destruct (equalsString deploymentName (Config.serviceName config));
    destruct (yes options); try destruct (confirmed W); try discriminate Hgo;
    destruct h as [| se | [ds]], w as [w|];
    cbv beta iota delta [bind tryCatch ret say record throw rethrow newError
      properties
      getDeployment readDeploymentHistory getDisk putDisk removeDeployment
      writeDeploymentHistory removeFailed currentHistory setHistory emptyHistory
      fst snd disk calls console history writable writeFailure deployments message negb];
    try match goal with
      | |- context [find ?f ds] => destruct (find f ds)
      end;
    rewrite ?H, ?H0; (split; reflexivity).
Qed.

End CommandFacts.

Lemma preflight_failure_aborts_witness :
  disk (deployCommand asciiLowercasing dockerDownWorld productionDeploy
          (procWithHistory [sampleDeployment (js "app")])).2
  = disk (procWithHistory [sampleDeployment (js "app")])
  /\ exists made,
       calls (deployCommand asciiLowercasing dockerDownWorld productionDeploy
                (procWithHistory [sampleDeployment (js "app")])).2
       = calls (procWithHistory [sampleDeployment (js "app")]) ++ made
       /\ made ⊆ [Exec GitRevParse; Exec DockerInfo; Exec GcloudAuthList]
       /\ existsb buildsPushesOrDeploys made = false.
Proof.
  apply (preflight_failure_aborts asciiLowercasing dockerDownWorld productionDeploy
           (procWithHistory [sampleDeployment (js "app")])).
  left. reflexivity.
Defined.

Lemma checkGcloudAuth_reads_status (W : World) (out : jsstring) (p : Proc) :
  execSync W GcloudAuthList = Exited out ->
  (checkGcloudAuth W p).1 = Normal true.
Proof.
  intros H. unfold checkGcloudAuth, exec, bind, record, ret. cbn. by rewrite H.
Qed.

(** C7, where the code departs from it.  Nobody is signed in to gcloud:
    [gcloud auth list] names no account and ends with status 0.  The check
    of init.js, which reads the answer, finds that out.  The check of
    deployCommand, GCPClient.checkGcloudAuth, looks at the status alone
    and passes, and deployCommand goes on: it logs in to the registry,
    builds and tags the image and tries to push it, where the
    specification has the pipeline stop before any of this.  With the
    container engine down the pipeline does stop (lemma
    [preflight_failure_aborts]). *)
Theorem unauthenticated_deploy_builds :
  (InitCommand.checkGcloudAuth signedOutWorld (procWithHistory [])).1 = Normal false
  /\ (checkGcloudAuth signedOutWorld (procWithHistory [])).1 = Normal true
  /\ calls (deployCommand asciiLowercasing signedOutWorld productionDeploy
              (procWithHistory [])).2
     = [ Exec GitRevParse; Exec DockerInfo; Exec GcloudAuthList;
         Exec (GcloudConfigureDocker (js "us-central1"));
         Exec (DockerBuild
                 (js "us-central1-docker.pkg.dev/shop/cloud-run-source-deploy/app:1700000000000"));
         Exec (DockerTag
                 (js "us-central1-docker.pkg.dev/shop/cloud-run-source-deploy/app:1700000000000")
                 (js "us-central1-docker.pkg.dev/shop/cloud-run-source-deploy/app:latest"));
         Exec (DockerPush
                 (js "us-central1-docker.pkg.dev/shop/cloud-run-source-deploy/app:1700000000000")) ]
  /\ existsb buildsPushesOrDeploys
       (calls (deployCommand asciiLowercasing signedOutWorld productionDeploy
                 (procWithHistory [])).2)
     = true
  /\ console (deployCommand asciiLowercasing signedOutWorld productionDeploy
                (procWithHistory [])).2
     = [Error (js "Command failed"); Log (js "Deployment failed.")].
Proof. repeat split; by vm_compute. Qed.

(** The same run, spelled out: one probe for the branch, one for the
    engine, one line on the console. *)
Example deploy_with_docker_down :
  deployCommand asciiLowercasing dockerDownWorld productionDeploy
    (procWithHistory [])
  = (Normal tt,
     {| disk := disk (procWithHistory []);
        calls := [Exec GitRevParse; Exec DockerInfo];
        console := [Error (js "Error: Docker is not running.")] |}).
Proof. reflexivity. Qed.

(** A deployment that goes through records itself in the history. *)
Example deploy_succeeds :
  currentHistory
    (deployCommand asciiLowercasing quietWorld productionDeploy
       (procWithHistory [])).2
  = [ {| Deployment.serviceName := js "app";
         Deployment.type := Production;
         Deployment.branch := js "main";
         Deployment.url := js "https://app-xyz.run.app";
         Deployment.image :=
           js "us-central1-docker.pkg.dev/shop/cloud-run-source-deploy/app:1700000000000";
         Deployment.region := Str (js "us-central1");
         Deployment.timestamp := js "2023-11-14T22:13:20.000Z" |} ].
Proof. by vm_compute. Qed.

(** C4, where the code departs from it.  The action wrappers of index.js
    end the process with status 1 on an error that reaches them, but the
    handlers catch their failures, print them and return: with the
    container engine down, and likewise with a failing build, a failing
    remote listing or a failing deletion, the failure is printed and the
    exit status is 0. *)
Theorem failed_deploy_exits_zero :
  (run asciiLowercasing dockerDownWorld (Deploy productionDeploy)
     (procWithHistory [])).1 = 0
  /\ console
       (run asciiLowercasing dockerDownWorld (Deploy productionDeploy)
          (procWithHistory [])).2
     = [Error (js "Error: Docker is not running.")]
  /\ (run asciiLowercasing buildBrokenWorld (Deploy productionDeploy)
        (procWithHistory [])).1 = 0
  /\ console
       (run asciiLowercasing buildBrokenWorld (Deploy productionDeploy)
          (procWithHistory [])).2
     = [Error (js "Command failed"); Log (js "Deployment failed.")]
  /\ run asciiLowercasing signedOutWorld (ListDeployments bothKinds)
       (procWithHistory [])
     = (0, {| disk := disk (procWithHistory []);
              calls := [Exec (GcloudRunServicesList (js "us-central1") (js "shop"))];
              console := [Error (js "Error: Command failed")] |})
  /\ (run asciiLowercasing deleteBrokenWorld (Remove (js "app") {| yes := true |})
        (procWithHistory [sampleDeployment (js "app")])).1 = 0
  /\ console
       (run asciiLowercasing deleteBrokenWorld (Remove (js "app") {| yes := true |})
          (procWithHistory [sampleDeployment (js "app")])).2
     = [Log (js "Warning: This is the production deployment!");
        Error (js "Error: Failed to delete service: 13 INTERNAL: backend unavailable")].
Proof. repeat split; by vm_compute. Qed.

(** The status 1 of the wrappers is reached by the errors no handler
    catches: a configuration that does not parse, one that is [null], and,
    for deploy, one without a serviceName. *)
Example escaping_errors_exit_one :
  (run asciiLowercasing quietWorld (Deploy productionDeploy)
     (procWithDocument NullDocument)).1 = 1
  /\ run asciiLowercasing quietWorld (Deploy productionDeploy)
       (procWithDocument (Properties namelessConfig))
     = (1, {| disk := disk (procWithDocument (Properties namelessConfig));
              calls := [];
              console :=
                [Error (js "Error: Cannot read properties of undefined (reading 'toLowerCase')")] |})
  /\ (run asciiLowercasing quietWorld (ListDeployments bothKinds)
        (procWithDocument NullDocument)).1 = 0
  /\ (run asciiLowercasing quietWorld (Logs onceProduction)
        (procWithDocument NullDocument)).1 = 1
  /\ (run asciiLowercasing quietWorld (Remove (js "app") askFirst)
        (procWithDocument NullDocument)).1 = 1.
Proof. repeat split; by vm_compute. Qed.

Example unreadable_config_exits_one :
  run asciiLowercasing quietWorld (Deploy productionDeploy) corruptProc
  = (1, {| disk := corruptDisk; calls := [];
           console :=
             [Error (js "Error: Error reading project config: Unexpected end of JSON input")] |}).
Proof. by vm_compute. Qed.

(** ** removeCommand and the history *)

(** The two outcomes the specification asks for, where the code delivers
    them: a service that getService reports absent, and a deletion that
    fails with a message holding neither 403 nor 404. *)
Lemma remove_absent_service (W : World) deploymentName options config p e :
  projectConfig (disk p) = Stored (Properties config) ->
  truthy deploymentName = true ->
  yes options || confirmed W = true ->
  writable (disk p) = true ->
  apiGetService W deploymentName = inl e ->
  code e = 5 ->
  (removeCommand W deploymentName options p).1 = Normal tt
  /\ currentHistory (removeCommand W deploymentName options p).2
     = filter (fun d => Deployment.serviceName d ≠ deploymentName) (currentHistory p).
Proof.
  intros Hpc Hn Hgo Hw Hget Hcode.
  destruct (removeCommand_history W deploymentName options config p Hpc Hn Hgo)
    as [H1 H2].
  split; [done|]. rewrite H2. unfold cleansHistory. by rewrite Hget, Hcode, Hw.
Qed.

Lemma remove_other_failure (W : World) deploymentName options config p service e :
  projectConfig (disk p) = Stored (Properties config) ->
  truthy deploymentName = true ->
  yes options || confirmed W = true ->
  apiGetService W deploymentName = inr service ->
  apiDeleteService W deploymentName = inl e ->
  includes (js "404") (js "Failed to delete service: " ++ apiMessage e) = false ->
  currentHistory (removeCommand W deploymentName options p).2 = currentHistory p.
Proof.
  intros Hpc Hn Hgo Hget Hdel H404.
  destruct (removeCommand_history W deploymentName options config p Hpc Hn Hgo)
    as [_ H2].
  rewrite H2. unfold cleansHistory, reads404.
  by rewrite Hget, Hdel, H404, andb_false_r.
Qed.

(** C6, where the code departs from it.  The service exists and its
    deletion is refused (status 7, PERMISSION_DENIED); the message names a
    project whose number contains 404.  removeCommand takes the message for
    a report of absence and removes the record from the history. *)
Theorem remove_failure_mistaken_for_absence :
  code permissionDenied <> 5
  /\ currentHistory (procWithHistory [sampleDeployment (js "app")])
     = [sampleDeployment (js "app")]
  /\ (removeCommand permissionDeniedWorld (js "app") {| yes := true |}
        (procWithHistory [sampleDeployment (js "app")])).1
     = Normal tt
  /\ calls (removeCommand permissionDeniedWorld (js "app") {| yes := true |}
              (procWithHistory [sampleDeployment (js "app")])).2
     = [RunGetService (js "app"); RunDeleteService (js "app")]
  /\ currentHistory
       (removeCommand permissionDeniedWorld (js "app") {| yes := true |}
          (procWithHistory [sampleDeployment (js "app")])).2
     = [].
Proof. repeat split; try done; by vm_compute. Qed.

(** The converse case: the service vanishes between getService and
    deleteService, the client reports NOT_FOUND (status 5) in words that
    hold no 404, and the record stays in the history. *)
Lemma remove_absence_on_delete_missed :
  code notFound = 5
  /\ (removeCommand vanishedServiceWorld (js "app") {| yes := true |}
        (procWithHistory [sampleDeployment (js "app")])).1
     = Normal tt
  /\ currentHistory
       (removeCommand vanishedServiceWorld (js "app") {| yes := true |}
          (procWithHistory [sampleDeployment (js "app")])).2
     = [sampleDeployment (js "app")].
Proof. repeat split; by vm_compute. Qed.

(** ** Log following *)

Import LogStream.

Lemma getEntriesSince_single (e : LogEntry) (since : N) :
  since <= entryTimestamp e -> getEntriesSince since [e] = [e].
Proof.
  intros H. unfold getEntriesSince. rewrite filter_cons.
  destruct (decide (since <= entryTimestamp e)); [done | lia].
Qed.

(** While an entry at or after the watermark is the newest of the log, every
    firing hands it to the callback again and leaves the watermark on it. *)
Lemma firings_repeat_newest (e : LogEntry) (n : nat) (st : Poller) :
  lastTimestamp st <= entryTimestamp e ->
  delivered (firings (replicate n (Some [e])) st) = delivered st ++ replicate n e
  /\ (n <> 0%nat ->
      lastTimestamp (firings (replicate n (Some [e])) st) = entryTimestamp e).
Proof.
  revert st. induction n as [|n IH]; intros st Hst.
  - simpl. by rewrite app_nil_r.
  - cbn [replicate firings fmap option_fmap option_map].
    rewrite getEntriesSince_single by done. cbn [onInterval last].
    destruct (IH {| lastTimestamp := entryTimestamp e;
                    delivered := delivered st ++ [e] |}) as [Hd Hl];
      [cbn; lia|].
    split.
    + rewrite Hd. cbn. by rewrite <- app_assoc.
    + intros _. destruct n; [done|]. by apply Hl.
Qed.

(** C5, where the code departs from it.  The interval is 2000 ms and the
    lower bound of a request is the timestamp of the last entry seen, but
    the bound is inclusive ([timestamp >=]): an entry that is still the
    newest at the next firing is delivered a second time, and the watermark
    stays where it was. *)
Theorem follow_delivers_twice :
  pollInterval = 2000
  /\ delivered
       (firings [Some [logEntry1]; Some [logEntry1]] (start 1700000000000))
     = [logEntry1; logEntry1]
  /\ lastTimestamp (firings [Some [logEntry1]] (start 1700000000000))
     = entryTimestamp logEntry1
  /\ lastTimestamp
       (firings [Some [logEntry1]; Some [logEntry1]] (start 1700000000000))
     = entryTimestamp logEntry1.
Proof. repeat split. Qed.

(** * Further properties of the code *)

(** ** sanitizeBranchName *)

Lemma stripStart_notHead (p : N -> bool) (s : jsstring) :
  match s with
  | c :: _ => p c = false
  | [] => True
  end ->
  stripStart p s = s.
Proof. destruct s as [|c s]; simpl; [done|]. by intros ->. Qed.

Lemma stripEnd_notLast (p : N -> bool) (s : jsstring) :
  (forall c, last s = Some c -> p c = false) -> stripEnd p s = s.
Proof.
  induction s as [|c s IH]; simpl; [done|]. intros H.
  destruct s as [|d s'].
  - simpl. by rewrite (H c eq_refl).
  - rewrite IH; [done|]. intros x Hx. apply H. by rewrite last_cons, Hx.
Qed.

Lemma collapseHyphens_fixed (s : jsstring) :
  noConsecutiveHyphens s = true -> collapseHyphens s = s.
Proof.
  induction s as [|c s IH]; simpl; [done|]. intros H.
  apply andb_prop in H as [H1 H2]. apply negb_true_iff in H1.
  by rewrite H1, IH.
Qed.

Lemma replaceDisallowed_fixed (s : jsstring) :
  forallb isNameChar s = true -> replaceDisallowed s = s.
Proof.
  induction s as [|c s IH]; simpl; [done|]. intros H.
  apply andb_prop in H as [H1 H2]. by rewrite H1, IH.
Qed.

Lemma endsWith_false_last (c : N) (s : jsstring) :
  endsWith c s = false -> forall d, last s = Some d -> (d =? c) = false.
Proof. unfold endsWith. intros H d Hd. by rewrite Hd in H. Qed.

Lemma cleanFragment_unchanged (L : Lowercasing) (branch : jsstring) :
  isCleanFragment branch = true -> sanitizeBranchName L branch = branch.
Proof.
  unfold isCleanFragment. intros H.
  apply andb_prop in H as [H Hlen]. apply andb_prop in H as [H Hend].
  apply andb_prop in H as [H Hstart]. apply andb_prop in H as [Halpha Hnc].
  rewrite negb_true_iff in Hstart. rewrite negb_true_iff in Hend.
  apply bool_decide_eq_true in Hlen.
  unfold sanitizeBranchName, trimTrailingHyphens, trimHyphens, substring_0_30.
  rewrite toLowerCase_name_alphabet by done.
  rewrite replaceDisallowed_fixed, collapseHyphens_fixed by done.
  rewrite stripStart_notHead by (by destruct branch).
  rewrite (stripEnd_notLast isHyphen branch) by exact (endsWith_false_last _ _ Hend).
  rewrite take_ge by done.
  apply stripEnd_notLast. exact (endsWith_false_last _ _ Hend).
Qed.

Lemma noConsecutiveHyphens_take (n : nat) (s : jsstring) :
  noConsecutiveHyphens s = true -> noConsecutiveHyphens (take n s) = true.
Proof.
  intros H. rewrite <- (take_drop n s) in H.
  by apply noConsecutiveHyphens_app in H as [H _].
Qed.

Lemma stripEnd_noConsecutive (s : jsstring) :
  noConsecutiveHyphens s = true ->
  noConsecutiveHyphens (stripEnd isHyphen s) = true.
Proof.
  intros H. destruct (stripEnd_prefix isHyphen s) as (suf & Hs & _).
  rewrite Hs in H. by apply noConsecutiveHyphens_app in H as [H _].
Qed.

Lemma startsWith_take (c : N) (n : nat) (s : jsstring) :
  startsWith c s = false -> startsWith c (take n s) = false.
Proof. destruct s, n; simpl; done. Qed.

Lemma startsWith_stripEnd (c : N) (p : N -> bool) (s : jsstring) :
  startsWith c s = false -> startsWith c (stripEnd p s) = false.
Proof.
  intros H. destruct (stripEnd p s) as [|d r] eqn:E; [done|].
  apply stripEnd_head in E as [r' ->]. exact H.
Qed.

Lemma startsWith_stripStart (s : jsstring) :
  startsWith hyphen (stripStart isHyphen s) = false.
Proof.
  destruct (stripStart isHyphen s) as [|c r] eqn:E; [done|].
  apply stripStart_head in E. exact E.
Qed.

Lemma endsWith_stripEnd (s : jsstring) :
  endsWith hyphen (stripEnd isHyphen s) = false.
Proof.
  unfold endsWith. destruct (last (stripEnd isHyphen s)) as [c|] eqn:E; [|done].
  by apply stripEnd_last in E.
Qed.

Lemma sanitized_isClean (L : Lowercasing) (branch : jsstring) :
  isCleanFragment (sanitizeBranchName L branch) = true.
Proof.
  unfold isCleanFragment.
  pose proof (sanitizeBranchName_alphabet L branch) as Ha.
  pose proof (sanitizeBranchName_length L branch) as Hl.
  unfold overNameAlphabet in Ha. rewrite Ha, (bool_decide_eq_true_2 _ Hl).
  unfold sanitizeBranchName, trimTrailingHyphens, trimHyphens, substring_0_30.
  rewrite endsWith_stripEnd.
  rewrite startsWith_stripEnd
    by (apply startsWith_take, startsWith_stripEnd, startsWith_stripStart).
  rewrite stripEnd_noConsecutive; [done|].
  apply noConsecutiveHyphens_take, trimHyphens_noConsecutive,
    collapseHyphens_noConsecutive.
Qed.

(** X1. Whatever the branch, the sanitized branch is a clean fragment: over
    [[a-z0-9-]], at most 30 units long, without two hyphens in a row and
    without a hyphen at either end; and sanitizing twice is sanitizing
    once. *)
Theorem sanitizeBranchName_idempotent (L : Lowercasing) (branch : jsstring) :
  isCleanFragment (sanitizeBranchName L branch) = true
  /\ sanitizeBranchName L (sanitizeBranchName L branch)
     = sanitizeBranchName L branch.
Proof.
  split; [apply sanitized_isClean|].
  apply cleanFragment_unchanged, sanitized_isClean.
Qed.

(** X2. The branch names sanitizeBranchName returns as they are, are exactly
    the clean fragments. *)
Theorem sanitizeBranchName_fixed_points (L : Lowercasing) (branch : jsstring) :
  sanitizeBranchName L branch = branch <-> isCleanFragment branch = true.
Proof.
  split.
  - intros H. rewrite <- H. apply sanitized_isClean.
  - apply cleanFragment_unchanged.
Qed.

Example sanitizeBranchName_clean_branch :
  sanitizeBranchName asciiLowercasing (js "feature-login-2") = js "feature-login-2".
Proof. reflexivity. Qed.

(** ** Preview names: prefix and suffix *)

Lemma collapseHyphens_app (a b : jsstring) :
  endsWith hyphen a && startsWith hyphen b = false ->
  collapseHyphens (a ++ b) = collapseHyphens a ++ collapseHyphens b.
Proof.
  induction a as [|c a IH]; [done|]. intros H.
  destruct a as [|d a'].
  - simpl in *. unfold endsWith in H. simpl in H.
    change (c =? hyphen) with (isHyphen c) in H. rewrite H.
    by rewrite andb_false_r.
  - assert (H' : endsWith hyphen (d :: a') && startsWith hyphen b = false).
    { unfold endsWith in *. by rewrite last_cons_cons in H. }
    specialize (IH H'). cbn [app collapseHyphens] in *.
    change (startsWith hyphen (d :: a' ++ b)) with (startsWith hyphen (d :: a')).
    rewrite IH. by destruct (isHyphen c && startsWith hyphen (d :: a')).
Qed.

Lemma stripEnd_app (p : N -> bool) (a b : jsstring) (c : N) :
  In c b -> p c = false -> stripEnd p (a ++ b) = a ++ stripEnd p b.
Proof.
  intros Hin Hc. induction a as [|d a IH]; [done|].
  cbn [app stripEnd]. rewrite IH.
  pose proof (stripEnd_keeps p b c Hin Hc) as Hk.
  destruct (a ++ stripEnd p b) as [|x r] eqn:E; [|done].
  apply app_eq_nil in E as [_ E]. by rewrite E in Hk.
Qed.

Lemma stripStart_app (p : N -> bool) (a b : jsstring) :
  stripStart p b = b -> exists pre, stripStart p (a ++ b) = pre ++ b.
Proof.
  intros Hb. induction a as [|c a [pre IH]].
  - exists []. exact Hb.
  - cbn [app stripStart]. destruct (p c); [by exists pre | by exists (c :: a)].
Qed.

Lemma matchesServiceNamePattern_ends (s : jsstring) :
  matchesServiceNamePattern s = true ->
  startsWith hyphen s = false /\ endsWith hyphen s = false /\ s <> [].
Proof.
  destruct s as [|c rest]; [done|]. simpl. intros H.
  apply andb_prop in H as [Hc H].
  split; [by apply alnum_not_hyphen|]. split; [|done].
  unfold endsWith. destruct (reverse rest) as [|l middle] eqn:Hrev.
  - apply (f_equal reverse) in Hrev. rewrite reverse_involutive in Hrev.
    subst rest. simpl. by apply alnum_not_hyphen.
  - apply (f_equal reverse) in Hrev.
    rewrite reverse_involutive, reverse_cons in Hrev. subst rest.
    apply andb_prop in H as [Hl _].
    rewrite last_cons, last_snoc. by apply alnum_not_hyphen.
Qed.

Lemma isPrefixOf_app (a b : jsstring) : isPrefixOf a (a ++ b) = true.
Proof. induction a as [|c a IH]; [done|]. simpl. by rewrite N.eqb_refl. Qed.

(** With a base name that is itself a valid service name without two
    hyphens in a row, the preview name is the base name, a hyphen, and
    more. *)
Lemma previewServiceName_prefix (serviceName sanitizedBranch uniqueId : jsstring) :
  matchesServiceNamePattern serviceName = true ->
  noConsecutiveHyphens serviceName = true ->
  isSuffix8 uniqueId = true ->
  exists more,
    previewServiceName serviceName sanitizedBranch uniqueId
    = serviceName ++ [hyphen] ++ more.
Proof.
  intros Hm Hnc Hid. apply matchesServiceNamePattern_ends in Hm as (Hs & He & Hne).
  unfold isSuffix8 in Hid. apply andb_prop in Hid as [Hlen Hid].
  apply bool_decide_eq_true in Hlen.
  destruct uniqueId as [|u rest]; [done|]. simpl in Hid.
  apply andb_prop in Hid as [Hu _]. apply alnum_not_hyphen in Hu.
  unfold previewServiceName, trimHyphens.
  rewrite collapseHyphens_app by by rewrite He.
  rewrite collapseHyphens_fixed by done.
  set (tail := [hyphen] ++ sanitizedBranch ++ [hyphen] ++ u :: rest).
  assert (Htail : exists t, collapseHyphens tail = hyphen :: t /\ In u t) .
  { pose proof (startsWith_hyphen_collapse tail) as Hsw.
    assert (Hin : In u (collapseHyphens tail)).
    { apply collapseHyphens_keeps; [|done]. unfold tail.
      rewrite !in_app_iff. do 2 right. right. by left. }
    destruct (collapseHyphens tail) as [|x t]; [done|].
    simpl in Hsw. apply N.eqb_eq in Hsw. subst x. exists t. split; [done|].
    destruct Hin as [E|Hin]; [|done]. subst u. done. }
  destruct Htail as (t & -> & Hin).
  rewrite stripStart_notHead by (destruct serviceName; [done | exact Hs]).
  rewrite (stripEnd_app isHyphen serviceName (hyphen :: t) u) by (by right || done).
  cbn [stripEnd]. pose proof (stripEnd_keeps isHyphen t u Hin Hu) as Hk.
  destruct (stripEnd isHyphen t) as [|x r] eqn:E; [done|].
  by exists (x :: r).
Qed.

(** X3. Every service that deployCommand names is one that listCommand keeps:
    its name is the configured name or starts with the configured name and
    a hyphen.  The configured name is taken to be a valid service name with
    no two hyphens in a row. *)
Theorem deployed_service_is_listed (L : Lowercasing) (config : Config.t)
    (configured : jsstring)
    (isProduction isPreview : bool) (branchName uniqueId url : jsstring) :
  Config.serviceName config = Str configured ->
  matchesServiceNamePattern configured = true ->
  noConsecutiveHyphens configured = true ->
  isSuffix8 uniqueId = true ->
  isRelevant config
    {| metadataName :=
         (resolveService L configured isProduction isPreview
            branchName uniqueId).1;
       statusUrl := url |} = true.
Proof.
  intros Hname Hm Hnc Hid.
  assert (Hlow : toLowerCase L configured = configured).
  { apply toLowerCase_name_alphabet. unfold overNameAlphabet.
    destruct configured as [|c rest]; [done|]. simpl in *.
    apply andb_prop in Hm as [Hc Hm]. unfold isNameChar at 1. rewrite Hc. simpl.
    destruct (reverse rest) as [|l middle] eqn:Hrev.
    - apply (f_equal reverse) in Hrev. rewrite reverse_involutive in Hrev.
      by subst rest.
    - apply (f_equal reverse) in Hrev.
      rewrite reverse_involutive, reverse_cons in Hrev. subst rest.
      apply andb_prop in Hm as [Hl Hmid]. rewrite forallb_app. simpl.
      unfold isNameChar at 2. rewrite Hl. simpl. rewrite andb_true_r.
      eapply forallb_incl; [|exact Hmid]. intros x Hx.
      apply list_elem_of_In, elem_of_reverse. by apply list_elem_of_In. }
  unfold isRelevant, resolveService. rewrite Hname, Hlow.
  cbn [metadataName equalsString render].
  destruct isProduction; cbn [fst].
  { by rewrite bool_decide_eq_true_2. }
  destruct (isPreview || negb (bool_decide (branchName = main))); cbn [fst].
  2: { by rewrite bool_decide_eq_true_2. }
  destruct (previewServiceName_prefix configured
              (sanitizeBranchName L branchName) uniqueId Hm Hnc Hid) as [more ->].
  rewrite app_assoc, isPrefixOf_app. apply orb_true_r.
Qed.

Lemma deployed_service_is_listed_witness :
  isRelevant sampleConfig
    {| metadataName :=
         (resolveService asciiLowercasing (js "app")
            false true (js "feature/login") (js "a1b2c3d4")).1;
       statusUrl := [] |} = true.
Proof.
  apply (deployed_service_is_listed asciiLowercasing sampleConfig (js "app")
           false true (js "feature/login") (js "a1b2c3d4") []); reflexivity.
Defined.

Lemma alnum_noConsecutive (s : jsstring) :
  forallb isAlnum s = true -> noConsecutiveHyphens s = true.
Proof.
  induction s as [|c s IH]; simpl; [done|]. intros H.
  apply andb_prop in H as [Hc Hs]. by rewrite (alnum_not_hyphen c Hc), IH.
Qed.

(** The preview name ends with the random suffix, unchanged. *)
Lemma previewServiceName_suffix (serviceName sanitizedBranch uniqueId : jsstring) :
  isSuffix8 uniqueId = true ->
  exists pre,
    previewServiceName serviceName sanitizedBranch uniqueId = pre ++ uniqueId.
Proof.
  unfold isSuffix8. intros Hid. apply andb_prop in Hid as [Hlen Hid].
  apply bool_decide_eq_true in Hlen.
  destruct uniqueId as [|u rest] eqn:Eid; [done|]. rewrite <- Eid in *.
  assert (Hu : isHyphen u = false).
  { subst uniqueId. simpl in Hid. apply andb_prop in Hid as [Hu _].
    by apply alnum_not_hyphen. }
  assert (Hlast : forall c, last uniqueId = Some c -> isHyphen c = false).
  { intros c Hc. apply alnum_not_hyphen.
    apply (proj1 (forallb_forall _ _) Hid), list_elem_of_In.
    by apply last_Some_elem_of. }
  unfold previewServiceName, trimHyphens.
  replace (serviceName ++ [hyphen] ++ sanitizedBranch ++ [hyphen] ++ uniqueId)
    with ((serviceName ++ [hyphen] ++ sanitizedBranch ++ [hyphen]) ++ uniqueId)
    by by rewrite <- !app_assoc.
  rewrite collapseHyphens_app
    by (subst uniqueId; simpl; change (u =? hyphen) with (isHyphen u);
        rewrite Hu; apply andb_false_r).
  rewrite (collapseHyphens_fixed uniqueId) by by apply alnum_noConsecutive.
  destruct (stripStart_app isHyphen
              (collapseHyphens (serviceName ++ [hyphen] ++ sanitizedBranch ++ [hyphen]))
              uniqueId) as [pre ->].
  { subst uniqueId. simpl. by rewrite Hu. }
  exists pre. apply stripEnd_notLast. intros c Hc. apply Hlast.
  subst uniqueId. rewrite last_app in Hc.
  destruct (last (u :: rest)) eqn:E; [done|]. by apply last_None in E.
Qed.

(** X4. Names derived with different random suffixes never collide, whatever
    the base names and the branches. *)
Theorem previews_do_not_collide
    (serviceName1 sanitizedBranch1 uniqueId1
     serviceName2 sanitizedBranch2 uniqueId2 : jsstring) :
  isSuffix8 uniqueId1 = true ->
  isSuffix8 uniqueId2 = true ->
  uniqueId1 <> uniqueId2 ->
  previewServiceName serviceName1 sanitizedBranch1 uniqueId1
  <> previewServiceName serviceName2 sanitizedBranch2 uniqueId2.
Proof.
  intros H1 H2 Hne E. apply Hne.
  destruct (previewServiceName_suffix serviceName1 sanitizedBranch1 uniqueId1 H1)
    as [pre1 E1].
  destruct (previewServiceName_suffix serviceName2 sanitizedBranch2 uniqueId2 H2)
    as [pre2 E2].
  rewrite E1, E2 in E.
  unfold isSuffix8 in H1, H2.
  apply andb_prop in H1 as [H1 _]. apply andb_prop in H2 as [H2 _].
  apply bool_decide_eq_true in H1. apply bool_decide_eq_true in H2.
  apply app_inj_2 in E; [by destruct E | congruence].
Qed.

Lemma previews_do_not_collide_witness :
  previewServiceName (js "app") (js "feature-x") (js "a1b2c3d4")
  <> previewServiceName (js "app") (js "feature-x") (js "z9y8x7w6").
Proof.
  apply (previews_do_not_collide (js "app") (js "feature-x") (js "a1b2c3d4")
           (js "app") (js "feature-x") (js "z9y8x7w6"));
    [reflexivity | reflexivity | discriminate].
Defined.

(** ** parseEnvFile *)

Lemma trim_head (s : jsstring) c r : trim s = c :: r -> isWhiteSpace c = false.
Proof.
  unfold trim. intros E. apply stripEnd_head in E as [r' E].
  by apply stripStart_head in E.
Qed.

Lemma trim_last (s : jsstring) c : last (trim s) = Some c -> isWhiteSpace c = false.
Proof. apply stripEnd_last. Qed.

Lemma trim_ends (s : jsstring) :
  match s with
  | c :: _ => isWhiteSpace c = false
  | [] => True
  end ->
  (forall c, last s = Some c -> isWhiteSpace c = false) ->
  trim s = s.
Proof.
  intros Hh Hl. unfold trim. rewrite stripStart_notHead by done.
  by apply stripEnd_notLast.
Qed.

Lemma trim_idempotent (s : jsstring) : trim (trim s) = trim s.
Proof.
  apply trim_ends.
  - destruct (trim s) as [|c r] eqn:E; [done|]. by apply trim_head in E.
  - apply trim_last.
Qed.

(** A string that [trim] leaves alone has no white space at its ends. *)
Lemma trim_fixed_ends (s : jsstring) :
  trim s = s ->
  match s with
  | c :: _ => isWhiteSpace c = false
  | [] => True
  end
  /\ (forall c, last s = Some c -> isWhiteSpace c = false).
Proof.
  intros E. split.
  - destruct s as [|c r]; [done|]. by apply trim_head in E.
  - intros c Hc. rewrite <- E in Hc. by apply trim_last in Hc.
Qed.

Lemma cutAtFirst_prefix (sep : N) (s : jsstring) :
  forallb (fun c => negb (c =? sep)) (cutAtFirst sep s).1 = true
  /\ exists rest, s = (cutAtFirst sep s).1 ++ rest.
Proof.
  induction s as [|c s [IH1 [rest IH2]]]; simpl.
  - split; [done | by exists []].
  - destruct (c =? sep) eqn:Hc; simpl.
    + split; [done | by eexists].
    + destruct (cutAtFirst sep s) as [k v]; simpl in *.
      rewrite Hc, IH1. split; [done|]. exists rest. by rewrite IH2 at 1.
Qed.

Lemma cutAtFirst_app (sep : N) (k v : jsstring) :
  forallb (fun c => negb (c =? sep)) k = true ->
  cutAtFirst sep (k ++ sep :: v) = (k, Some v).
Proof.
  induction k as [|c k IH]; simpl.
  - by rewrite N.eqb_refl.
  - intros H. apply andb_prop in H as [Hc Hk]. apply negb_true_iff in Hc.
    by rewrite Hc, IH.
Qed.

Lemma processLine_keys (m : gmap jsstring jsstring) (line : jsstring) :
  (forall k, is_Some (m !! k) -> keyOfLoader k) ->
  forall k, is_Some (processLine m line !! k) -> keyOfLoader k.
Proof.
  intros Hm k. unfold processLine.
  destruct (trim line) as [|c t'] eqn:Ht; [by apply Hm|].
  cbn [truthy startsWith andb]. destruct (c =? hash) eqn:Hhash; [by apply Hm|].
  cbn [negb].
  destruct (key_and_value_of_split (c :: t')) as (valueParts & -> & _).
  destruct (cutAtFirst_prefix equals (c :: t')) as [Hnoeq [rest Hpre]].
  destruct ((cutAtFirst equals (c :: t')).1) as [|c0 key'] eqn:Hkey;
    [by apply Hm|].
  cbn [truthy]. simpl in Hpre. injection Hpre as <- _.
  unfold setProperty. case_bool_decide as Hproto; [by apply Hm|].
  intros Hk. destruct (decide (trim (c :: key') = k)) as [<-|Hne].
  2: { rewrite lookup_insert_ne in Hk by done. by apply Hm. }
  pose proof (trim_head line c t' Ht) as Hc.
  assert (Htrim : trim (c :: key') = stripEnd isWhiteSpace (c :: key')).
  { unfold trim. by rewrite stripStart_notHead. }
  assert (Hin : In c (trim (c :: key'))).
  { rewrite Htrim. apply stripEnd_keeps; [by left | done]. }
  repeat split.
  - intros E. by rewrite E in Hin.
  - apply trim_idempotent.
  - done.
  - eapply forallb_incl; [|exact Hnoeq]. intros x Hx. rewrite Htrim in Hx.
    by apply stripEnd_In in Hx.
  - rewrite Htrim.
    destruct (stripEnd isWhiteSpace (c :: key')) as [|x r] eqn:E; [done|].
    apply stripEnd_head in E as [r' E]. injection E as <- _. exact Hhash.
Qed.

(** X5. Every key of the mapping parseEnvFile returns is non-empty, has no
    white space at its ends, holds no [=], does not start with [#] and is
    not [__proto__]. *)
Theorem parseEnvContent_keys (envContent k : jsstring) :
  is_Some (parseEnvContent envContent !! k) ->
  k <> [] /\ trim k = k /\ k <> proto
  /\ forallb (fun c => negb (c =? equals)) k = true
  /\ startsWith hash k = false.
Proof.
  unfold parseEnvContent. generalize (split newline envContent). intros lines.
  assert (H : forall m, (forall k, is_Some (m !! k) -> keyOfLoader k) ->
                forall k, is_Some (foldl processLine m lines !! k) -> keyOfLoader k).
  { induction lines as [|line lines IH]; intros m Hm; [done|].
    simpl. apply IH. by apply processLine_keys. }
  apply H. intros k' Hk'. rewrite lookup_empty in Hk'. by destruct Hk'.
Qed.

Lemma parseEnvContent_keys_witness :
  js "URL" <> [] /\ trim (js "URL") = js "URL" /\ js "URL" <> proto
  /\ forallb (fun c => negb (c =? equals)) (js "URL") = true
  /\ startsWith hash (js "URL") = false.
Proof.
  apply (parseEnvContent_keys envSample (js "URL")).
  exists (js "postgres://u:p@h/db?a=b"). by vm_compute.
Defined.

Lemma split_app_sep (sep : N) (a b : jsstring) :
  split sep (a ++ sep :: b) = split sep a ++ split sep b.
Proof.
  induction a as [|c a IH]; simpl.
  - by rewrite N.eqb_refl.
  - destruct (c =? sep); [by rewrite IH|]. rewrite IH.
    by destruct (split_cons_inv sep a) as (w & ws & ->).
Qed.

Lemma split_no_sep (sep : N) (s : jsstring) :
  forallb (fun c => negb (c =? sep)) s = true -> split sep s = [s].
Proof.
  induction s as [|c s IH]; simpl; [done|]. intros H.
  apply andb_prop in H as [Hc Hs]. apply negb_true_iff in Hc.
  by rewrite Hc, IH.
Qed.

Lemma processLine_plain (m : gmap jsstring jsstring) (k v : jsstring) :
  isPlainKey k = true -> isPlainValue v = true ->
  processLine m (k ++ [equals] ++ v) = <[k := v]> m.
Proof.
  unfold isPlainKey, isPlainValue. intros Hk Hv.
  apply andb_prop in Hk as [Hk Hproto]. apply andb_prop in Hk as [Hk Hhash].
  apply andb_prop in Hk as [Hk Htrim]. apply andb_prop in Hk as [Hne Hchars].
  apply andb_prop in Hv as [Hv Hquote]. apply andb_prop in Hv as [Hvnl Hvtrim].
  rewrite negb_true_iff in Hproto. rewrite negb_true_iff in Hhash.
  apply bool_decide_eq_true in Htrim. apply bool_decide_eq_true in Hvtrim.
  apply bool_decide_eq_true in Hquote.
  destruct (trim_fixed_ends k Htrim) as [Hkh Hkl].
  destruct (trim_fixed_ends v Hvtrim) as [Hvh Hvl].
  destruct k as [|c k']; [done|].
  assert (Hline : trim ((c :: k') ++ [equals] ++ v) = (c :: k') ++ [equals] ++ v).
  { apply trim_ends; [exact Hkh|]. intros x. rewrite app_assoc, last_app.
    destruct (last v) as [y|] eqn:Hy.
    - intros [= <-]. by apply Hvl.
    - rewrite last_snoc. by intros [= <-]. }
  unfold processLine. rewrite Hline.
  change (truthy ((c :: k') ++ [equals] ++ v)) with true.
  change (startsWith hash ((c :: k') ++ [equals] ++ v))
    with (startsWith hash (c :: k')).
  rewrite Hhash. cbn [andb negb].
  destruct (key_and_value_of_split ((c :: k') ++ [equals] ++ v))
    as (valueParts & -> & ->).
  assert (Hcut : cutAtFirst equals ((c :: k') ++ [equals] ++ v) = (c :: k', Some v)).
  { apply cutAtFirst_app. apply forallb_forall. intros x Hx.
    apply (proj1 (forallb_forall _ _) Hchars) in Hx.
    by apply andb_prop in Hx as [Hx _]. }
  rewrite Hcut. cbn [fst snd truthy from_option id]. rewrite Htrim, Hvtrim, Hquote.
  unfold setProperty. by rewrite Hproto.
Qed.

(** X6. A plain line [KEY=VALUE] appended to a file sets [KEY] to [VALUE] and
    leaves the other bindings as they were; alone, it gives the mapping
    with that one binding. *)
Theorem parseEnvContent_append_plain (envContent k v : jsstring) :
  isPlainKey k = true -> isPlainValue v = true ->
  parseEnvContent (envContent ++ [newline] ++ k ++ [equals] ++ v)
  = <[k := v]> (parseEnvContent envContent)
  /\ parseEnvContent (k ++ [equals] ++ v) = {[ k := v ]}.
Proof.
  intros Hk Hv.
  assert (Hnl : forallb (fun c => negb (c =? newline)) (k ++ [equals] ++ v) = true).
  { unfold isPlainKey, isPlainValue in *.
    apply andb_prop in Hk as [Hk _]. apply andb_prop in Hk as [Hk _].
    apply andb_prop in Hk as [Hk _]. apply andb_prop in Hk as [_ Hk].
    apply andb_prop in Hv as [Hv _]. apply andb_prop in Hv as [Hv _].
    rewrite !forallb_app, Hv. simpl. rewrite andb_true_r.
    apply forallb_forall. intros x Hx.
    apply (proj1 (forallb_forall _ _) Hk) in Hx.
    by apply andb_prop in Hx as [_ Hx]. }
  unfold parseEnvContent. split.
  - change (envContent ++ [newline] ++ k ++ [equals] ++ v)
      with (envContent ++ newline :: (k ++ [equals] ++ v)).
    rewrite split_app_sep, (split_no_sep newline (k ++ [equals] ++ v)) by done.
    rewrite foldl_app. cbn [foldl]. by apply processLine_plain.
  - rewrite split_no_sep by done. cbn [foldl]. rewrite processLine_plain by done.
    by rewrite insert_empty.
Qed.

Lemma parseEnvContent_append_plain_witness :
  parseEnvContent (envSample ++ [newline] ++ js "KEY" ++ [equals] ++ js "a=b c")
  = <[js "KEY" := js "a=b c"]> (parseEnvContent envSample)
  /\ parseEnvContent (js "KEY" ++ [equals] ++ js "a=b c")
     = {[ js "KEY" := js "a=b c" ]}.
Proof.
  apply (parseEnvContent_append_plain envSample (js "KEY") (js "a=b c"));
    reflexivity.
Defined.

(** ** The state store *)

Lemma getDeployment_find (n : jsstring) (p : Proc) :
  (getDeployment n p).1
  = Normal (find (fun d => bool_decide (Deployment.serviceName d = n))
              (currentHistory p)).
Proof.
  unfold getDeployment, currentHistory, readDeploymentHistory, bind, getDisk, ret, say.
  destruct p as [[g c h w] cs out]. by destruct h.
Qed.

Lemma find_filter_other (n : jsstring) (h : list Deployment.t) :
  find (fun d => bool_decide (Deployment.serviceName d = n))
       (filter (fun d => Deployment.serviceName d ≠ n) h) = None.
Proof.
  induction h as [|d h IH]; [done|]. rewrite filter_cons.
  destruct (decide (Deployment.serviceName d ≠ n)) as [Hne|]; [|done].
  simpl. by rewrite bool_decide_eq_false_2.
Qed.

Lemma find_app_first {A} (f : A -> bool) (a b : list A) :
  find f (a ++ b) = match find f a with
                    | Some x => Some x
                    | None => find f b
                    end.
Proof. induction a as [|x a IH]; [done|]. simpl. by destruct (f x). Qed.

(** X7. getDeployment answers with the first record of the name.  After
    addDeployment on a writable disk that is the record the history held
    already, if there was one, and the new record only otherwise: a second
    deployment of a service does not change what getDeployment returns. *)
Theorem getDeployment_after_add (d : Deployment.t) (now : jsstring) (p : Proc) :
  writable (disk p) = true ->
  (getDeployment (Deployment.serviceName d) (addDeployment d now p).2).1
  = Normal
      (match (getDeployment (Deployment.serviceName d) p).1 with
       | Normal (Some earlier) => Some earlier
       | _ => Some (Deployment.withTimestamp d now)
       end).
Proof.
  intros Hw. rewrite !getDeployment_find, currentHistory_addDeployment, Hw.
  f_equal. rewrite find_app_first.
  destruct (find _ (currentHistory p)); [done|].
  simpl. by rewrite bool_decide_eq_true_2.
Qed.

Lemma getDeployment_after_add_witness :
  (getDeployment (js "app")
     (addDeployment (sampleDeployment (js "app")) (js "2024-01-01T00:00:00.000Z")
        (procWithHistory [sampleDeployment (js "app")])).2).1
  = Normal (Some (sampleDeployment (js "app"))).
Proof.
  apply (getDeployment_after_add (sampleDeployment (js "app"))
           (js "2024-01-01T00:00:00.000Z")
           (procWithHistory [sampleDeployment (js "app")])).
  reflexivity.
Defined.

(** X8. After removeDeployment on a writable disk getDeployment finds nothing
    under the name; removing a second time changes nothing more; and
    removing a name the history does not hold leaves every record in
    place. *)
Theorem removeDeployment_effect (n : jsstring) (p : Proc) :
  writable (disk p) = true ->
  (getDeployment n (removeDeployment n p).2).1 = Normal None
  /\ currentHistory (removeDeployment n (removeDeployment n p).2).2
     = currentHistory (removeDeployment n p).2
  /\ (n ∉ names (currentHistory p) ->
      currentHistory (removeDeployment n p).2 = currentHistory p).
Proof.
  intros Hw. split; [|split].
  - by rewrite getDeployment_find, currentHistory_removeDeployment, Hw,
      find_filter_other.
  - rewrite !currentHistory_removeDeployment, writable_removeDeployment, Hw.
    apply filter_other_names. rewrite names_filter. intros Hn.
    by apply list_elem_of_filter in Hn as [Hn _].
  - intros Hn. rewrite currentHistory_removeDeployment, Hw.
    by apply filter_other_names.
Qed.

Lemma removeDeployment_effect_witness :
  (getDeployment (js "app")
     (removeDeployment (js "app")
        (procWithHistory [sampleDeployment (js "app");
                          sampleDeployment (js "app-x-a1b2c3d4")])).2).1
  = Normal None.
Proof.
  apply (removeDeployment_effect (js "app")
           (procWithHistory [sampleDeployment (js "app");
                             sampleDeployment (js "app-x-a1b2c3d4")])).
  reflexivity.
Defined.



(** *** Writing and reading back *)

(** X10. On a disk that accepts writes, writeProjectConfig followed by
    readProjectConfig returns the configuration written, whatever the file
    held before, and the project counts as initialized; writeGlobalConfig
    followed by readGlobalConfig does the same for the preferences and
    creates the directory when it is missing. *)
Theorem write_then_read (config : Config.t) (g : GlobalConfig) (p : Proc) :
  writeFailure (disk p) = None ->
  (readProjectConfig (writeProjectConfig config p).2).1
  = Normal (Properties config)
  /\ (isProjectInitialized (writeProjectConfig config p).2).1 = Normal true
  /\ (writeGlobalConfig g p).1 = Normal true
  /\ (readGlobalConfig (writeGlobalConfig g p).2).1 = Normal g.
Proof.
  intros Hw. destruct p as [[gc c h w] cs out]. simpl in *. subst w.
  unfold writeProjectConfig, readProjectConfig, isProjectInitialized,
    writeGlobalConfig, readGlobalConfig, ensureGlobalConfigDir,
    bind, getDisk, putDisk, ret, say.
  repeat split; try reflexivity; by destruct gc.
Qed.

Lemma write_then_read_witness :
  (readProjectConfig (writeProjectConfig sampleConfig corruptProc).2).1
  = Normal (Properties sampleConfig).
Proof.
  apply (write_then_read sampleConfig {| lastUsedProject := None |} corruptProc).
  reflexivity.
Defined.

(** X11. When the disk refuses the write, writeProjectConfig throws, while
    writeGlobalConfig (its directory existing) prints the error and returns
    [false]; neither changes the disk. *)
Theorem write_failure_asymmetry (config : Config.t) (g : GlobalConfig)
    (failure : jsstring) (p : Proc) :
  writeFailure (disk p) = Some failure ->
  globalConfig (disk p) <> None ->
  writeProjectConfig config p
  = (Thrown (newError (js "Error writing project config: " ++ failure)), p)
  /\ (writeGlobalConfig g p).1 = Normal false
  /\ disk (writeGlobalConfig g p).2 = disk p.
Proof.
  intros Hw Hg. destruct p as [[gc c h w] cs out]. simpl in *. subst w.
  unfold writeProjectConfig, writeGlobalConfig, ensureGlobalConfigDir,
    bind, getDisk, putDisk, ret, say, throw.
  by destruct gc.
Qed.

Lemma write_failure_asymmetry_witness :
  writeProjectConfig sampleConfig
    {| disk := {| globalConfig := Some Absent; projectConfig := Absent;
                  history := Absent;
                  writeFailure := Some (js "EROFS: read-only file system") |};
       calls := []; console := [] |}
  = (Thrown (newError (js "Error writing project config: EROFS: read-only file system")),
     {| disk := {| globalConfig := Some Absent; projectConfig := Absent;
                   history := Absent;
                   writeFailure := Some (js "EROFS: read-only file system") |};
        calls := []; console := [] |}).
Proof.
  apply (write_failure_asymmetry sampleConfig {| lastUsedProject := None |}
           (js "EROFS: read-only file system")
           {| disk := {| globalConfig := Some Absent; projectConfig := Absent;
                         history := Absent;
                         writeFailure := Some (js "EROFS: read-only file system") |};
              calls := []; console := [] |}); [reflexivity | discriminate].
Defined.

(** *** validateProjectConfig *)

(** X12. validateProjectConfig returns [true] exactly when projectId, region
    and serviceName are all present; otherwise it throws one error whose
    message lists every missing field, in that order, and no other.  A
    field is present when its value is truthy; on [null] the first read
    throws. *)
Theorem validateProjectConfig_complete (config : Config.t) (p : Proc) :
  ((validateProjectConfig (Properties config) p).1 = Normal true
   <-> truthyValue (Config.projectId config) = true
       /\ truthyValue (Config.region config) = true
       /\ truthyValue (Config.serviceName config) = true)
  /\ ((validateProjectConfig (Properties config) p).1 <> Normal true ->
      (validateProjectConfig (Properties config) p).1
      = Thrown (newError (js "Missing required configuration fields: "
                          ++ joinWith (js ", ") (missing config))))
  /\ missing config
     = (if truthyValue (Config.projectId config) then [] else [js "projectId"])
       ++ (if truthyValue (Config.region config) then [] else [js "region"])
       ++ (if truthyValue (Config.serviceName config) then []
           else [js "serviceName"])
  /\ validateProjectConfig NullDocument p
     = (Thrown (newError (js "Cannot read properties of null (reading 'projectId')")),
        p).
Proof.
  unfold validateProjectConfig. rewrite bind_properties.
  unfold missing, required. cbn [List.filter snd fst].
  destruct (truthyValue (Config.projectId config)),
           (truthyValue (Config.region config)),
           (truthyValue (Config.serviceName config));
    cbn; repeat split; try done; try (intros [H1 [H2 H3]]; done).
Qed.

Lemma validateProjectConfig_complete_witness :
  (validateProjectConfig (Properties incompleteConfig) uninitializedProc).1
  = Thrown (newError (js "Missing required configuration fields: "
                      ++ joinWith (js ", ") (missing incompleteConfig))).
Proof.
  apply (validateProjectConfig_complete incompleteConfig uninitializedProc).
  discriminate.
Defined.

Example validateProjectConfig_two_missing :
  (validateProjectConfig (Properties incompleteConfig) uninitializedProc).1
  = Thrown (newError
              (js "Missing required configuration fields: projectId, serviceName")).
Proof. reflexivity. Qed.

(** ** The service-name prompt of init *)

Lemma replaceDisallowed_overNameAlphabet (s : jsstring) :
  overNameAlphabet (replaceDisallowed s) = true.
Proof.
  unfold overNameAlphabet, replaceDisallowed.
  induction s as [|c s IH]; [done|]. cbn [map forallb]. rewrite IH, andb_true_r.
  by destruct (isNameChar c) eqn:E.
Qed.

(** X13. The name the prompt proposes passes the prompt's own validation as
    soon as it is not empty, whatever the directory is called, and the
    [format] step leaves every accepted name as it was typed. *)
Theorem prompt_accepts_initial (L : Lowercasing) (basename value : jsstring) :
  (initialServiceName L basename <> [] ->
   validateServiceName (initialServiceName L basename) = None)
  /\ (validateServiceName value = None -> formatServiceName L value = value)
  /\ (validateServiceName value = None <->
      value <> [] /\ overNameAlphabet value = true).
Proof.
  assert (Hiff : forall v, validateServiceName v = None <->
                            v <> [] /\ overNameAlphabet v = true).
  { clear value. intros value. unfold validateServiceName, overNameAlphabet.
    destruct value as [|c value].
    - split; [discriminate | by intros [? _]].
    - rewrite bool_decide_eq_false_2 by done.
      replace (truthy (c :: value)) with true by done. cbn [andb].
      destruct (forallb isNameChar (c :: value)); cbn [negb]; split;
        try done; by intros [_ ?]. }
  split; [|split; [|apply Hiff]].
  - intros Hne. apply Hiff. split; [done|]. apply replaceDisallowed_overNameAlphabet.
  - intros H. apply Hiff in H as [_ H]. by apply toLowerCase_name_alphabet.
Qed.

Lemma prompt_accepts_initial_witness :
  validateServiceName (initialServiceName asciiLowercasing (js "My Shop_v2")) = None
  /\ formatServiceName asciiLowercasing (js "my-shop-v2") = js "my-shop-v2".
Proof.
  split.
  - apply (prompt_accepts_initial asciiLowercasing (js "My Shop_v2") (js "my-shop-v2")).
    by vm_compute.
  - apply (prompt_accepts_initial asciiLowercasing (js "My Shop_v2") (js "my-shop-v2")).
    by vm_compute.
Defined.

(** The validation of the prompt is weaker than the pattern of a Cloud Run
    service name: a leading hyphen passes. *)
Example prompt_accepts_leading_hyphen :
  validateServiceName (js "-shop") = None
  /\ matchesServiceNamePattern (js "-shop") = false.
Proof. by vm_compute. Qed.

(** ** Log following: what the poller keeps *)

Import LogStream.

Lemma getEntriesSince_bound (since : N) (log : list LogEntry) (e : LogEntry) :
  e ∈ getEntriesSince since log <-> since <= entryTimestamp e /\ e ∈ log.
Proof.
  unfold getEntriesSince.
  apply (list_elem_of_filter (fun x => since <= entryTimestamp x)).
Qed.

Lemma onInterval_step (log : option (list LogEntry)) (st : Poller) :
  lastTimestamp st
  <= lastTimestamp (onInterval (getEntriesSince (lastTimestamp st) <$> log) st)
  /\ exists more,
       delivered (onInterval (getEntriesSince (lastTimestamp st) <$> log) st)
       = delivered st ++ more
       /\ forall e, e ∈ more -> lastTimestamp st <= entryTimestamp e.
Proof.
  destruct log as [log|]; cbn [fmap option_fmap option_map onInterval];
    [|split; [lia | exists []; rewrite app_nil_r; split; [done | by intros e ?%elem_of_nil]]].
  destruct (last (getEntriesSince (lastTimestamp st) log)) as [e|] eqn:Hlast;
    cbn [lastTimestamp delivered].
  - split.
    + apply last_Some_elem_of in Hlast. by apply getEntriesSince_bound in Hlast as [? _].
    + eexists; split; [reflexivity|]. intros x Hx.
      by apply getEntriesSince_bound in Hx as [? _].
  - split; [lia|]. exists []. rewrite app_nil_r.
    split; [done | by intros e ?%elem_of_nil].
Qed.

Lemma firings_extend (logs : list (option (list LogEntry))) (st : Poller) :
  lastTimestamp st <= lastTimestamp (firings logs st)
  /\ exists more,
       delivered (firings logs st) = delivered st ++ more
       /\ forall e, e ∈ more -> lastTimestamp st <= entryTimestamp e.
Proof.
  revert st. induction logs as [|log later IH]; intros st; cbn [firings].
  - split; [lia|]. exists []. rewrite app_nil_r.
    split; [done | by intros e ?%elem_of_nil].
  - destruct (onInterval_step log st) as (Hw & more1 & Hd1 & Hb1).
    destruct (IH (onInterval (getEntriesSince (lastTimestamp st) <$> log) st))
      as (Hw' & more2 & Hd2 & Hb2).
    split; [lia|]. exists (more1 ++ more2). split.
    + by rewrite Hd2, Hd1, app_assoc.
    + intros e [He | He]%elem_of_app; [by apply Hb1|].
      specialize (Hb2 e He). lia.
Qed.


(** X15. A firing whose request succeeds hands over every entry of the log
    that is at or after the watermark, and later firings do not take it
    back. *)
Theorem firing_delivers (log : list LogEntry) (later : list (option (list LogEntry)))
    (st : Poller) (e : LogEntry) :
  e ∈ log ->
  lastTimestamp st <= entryTimestamp e ->
  e ∈ delivered (firings (Some log :: later) st).
Proof.
  intros Hin Hts. cbn [firings fmap option_fmap option_map].
  assert (He : e ∈ getEntriesSince (lastTimestamp st) log)
    by by apply getEntriesSince_bound.
  assert (Hnow : e ∈ delivered
                   (onInterval (Some (getEntriesSince (lastTimestamp st) log)) st)).
  { cbn [onInterval].
    destruct (last (getEntriesSince (lastTimestamp st) log)) eqn:Hlast.
    - cbn [delivered]. apply elem_of_app. by right.
    - apply last_None in Hlast. rewrite Hlast in He. by apply elem_of_nil in He. }
  destruct (firings_extend later
              (onInterval (Some (getEntriesSince (lastTimestamp st) log)) st))
    as (_ & more & Hd & _).
  rewrite Hd. apply elem_of_app. by left.
Qed.

Lemma addDeployment_result (d : Deployment.t) (now : jsstring) (p : Proc) :
  exists out',
    addDeployment d now p
    = (Normal tt,
       {| disk := if writable (disk p)
                  then setHistory
                         (Stored {| deployments :=
                                      currentHistory p ++ [Deployment.withTimestamp d now] |})
                         (disk p)
                  else disk p;
          calls := calls p; console := out' |}).
Proof.
  destruct p as [[g pc h w] cs out].
  destruct h as [|e|[ds]], w as [failure|]; eexists; reflexivity.
Qed.

Lemma currentHistory_disk (p q : Proc) :
  disk p = disk q -> currentHistory p = currentHistory q.
Proof.
  destruct p as [[g pc h w] cs out], q as [d' cs' out']. cbn [disk].
  intros <-. by destruct h.
Qed.

Section DeployFacts.
Context (L : Lowercasing) (W : World).

Ltac run_steps :=
  cbv beta iota delta [bind tryCatch ret say record throw rethrow
      getCurrentBranch exec checkDockerRunning checkGcloudAuth configureDockerAuth
      buildDockerImage pushDockerImage tagDockerImage execOrThrow deployFailed
      negb succeeded andb stdoutOf];
  cbn [fst snd disk calls console].

Ltac run_ends :=
  rewrite <- ?app_assoc;
  eexists _, _; split; [reflexivity|];
  cbn [app]; split; [eexists; reflexivity | try discriminate; try reflexivity].

(** The errors of [escapes] leave deployCommand before it does anything. *)
Lemma deployCommand_escape (options : DeployOptions) (p : Proc) :
  escapes (Deploy options) (projectConfig (disk p)) = true ->
  exists error, deployCommand L W options p = (Thrown error, p).
Proof.
  unfold deployCommand. rewrite opening.
  destruct (projectConfig (disk p)) as [|e|[|config]]; cbn [escapes readsConfig dereferences];
    [done | by eexists | by eexists |].
  rewrite bind_properties.
  destruct (Config.serviceName config); cbn [isString negb];
    [done | by eexists..].
Qed.

Lemma deployCommand_run (options : DeployOptions) (config : Config.t)
    (configured : jsstring) (p : Proc) :
  projectConfig (disk p) = Stored (Properties config) ->
  Config.serviceName config = Str configured ->
  exists made out',
    deployCommand L W options p
    = (Normal tt,
       {| disk := if pipelineSucceeds L W options config && writable (disk p)
                  then setHistory
                         (Stored {| deployments :=
                                      currentHistory p ++ [recordOf L W options config] |})
                         (disk p)
                  else disk p;
          calls := calls p ++ made; console := out' |})
    /\ made `prefix_of` deployPlan L W options config
    /\ (pipelineSucceeds L W options config = true ->
        made = deployPlan L W options config).
Proof.
  intros Hpc Hname. unfold deployCommand. rewrite opening, Hpc, bind_properties.
  destruct p as [d cs out]. cbn [disk calls console] in *. clear Hpc.
  unfold deployPlan, pipelineSucceeds, recordOf, imageTagOf, imageLatestOf,
    targetOf, branchNameOf, asksGit, orElse.
  rewrite Hname. cbn [render receiverOfToLowerCase]. clear Hname.
  destruct (branch options) as [v|];
    [destruct (truthy v)|];
    run_steps;
    try destruct (execSync W GitRevParse) as [gitOut|gitError];
    run_steps;
    destruct (resolveService _ _ _ _ _ _) as [serviceName deploymentType];
    destruct (parseEnvFile (envFile W)) as [envVars warning];
    cbn [fst snd].
  all: destruct (execSync W DockerInfo); run_steps; [|run_ends].
  all: destruct (execSync W GcloudAuthList); run_steps; [|run_ends].
  all: destruct (execSync W (GcloudConfigureDocker _)); run_steps; [|run_ends].
  all: destruct warning as [text|]; run_steps.
  all: destruct (execSync W (DockerBuild _)); run_steps; [|run_ends].
  all: destruct (execSync W (DockerTag _ _)); run_steps.
  all: destruct (execSync W (DockerPush (_ ++ _ ++ _ ++ js ":" ++ _)));
    run_steps; [|run_ends].
  all: destruct (execSync W (DockerPush _)); run_steps.
  all: destruct (execSync W (GcloudRunDeploy _ _ _ _ _)) as [deployOut|deployError];
    run_steps;
    [|destruct (includes (js "403") (message deployError));
      [|destruct (includes (js "404") (message deployError))]; run_ends].
  all: destruct (execSync W (GcloudRunDescribe _ _ _)) as [url|describeError];
    run_steps;
    [|destruct (includes (js "403") (message describeError));
      [|destruct (includes (js "404") (message describeError))]; run_ends].
  all: match goal with
       | |- context [addDeployment ?r ?n ?P] =>
           destruct (addDeployment_result r n P) as [out'' ->];
           rewrite (currentHistory_disk P {| disk := d; calls := cs; console := out |}
                      eq_refl)
       end;
    run_steps; run_ends.
Qed.

(** X16. deployCommand returns normally when gcp-deploy.json is missing
    (a line is printed, nothing else happens) and when it parses to an
    object whose serviceName is a string, whatever fails on the way.  When
    the file does not parse, parses to [null] or holds no string under
    serviceName, an error leaves the handler before any call is made and
    the state is as it was.  In a run on an object with a string
    serviceName the history gains exactly one record, the one of this
    deployment, at its end, when the seven steps that end the pipeline all
    succeed and the history file can be written; in every other case the
    history reads as before, and when a step fails the disk is untouched.
    A failure to tag the image or to push [:latest] does not stop the
    deployment. *)
Theorem deployCommand_history (options : DeployOptions) (p : Proc) :
  match projectConfig (disk p) with
  | Absent =>
      (deployCommand L W options p).1 = Normal tt
      /\ disk (deployCommand L W options p).2 = disk p
      /\ calls (deployCommand L W options p).2 = calls p
  | Malformed _ | Stored NullDocument =>
      exists error, deployCommand L W options p = (Thrown error, p)
  | Stored (Properties config) =>
      if isString (Config.serviceName config) then
        (deployCommand L W options p).1 = Normal tt
        /\ currentHistory (deployCommand L W options p).2
           = (if pipelineSucceeds L W options config && writable (disk p)
              then currentHistory p ++ [recordOf L W options config]
              else currentHistory p)
        /\ (pipelineSucceeds L W options config = false ->
            disk (deployCommand L W options p).2 = disk p)
      else exists error, deployCommand L W options p = (Thrown error, p)
  end.
Proof.
  pose proof (deployCommand_escape options p) as Hescape.
  destruct (projectConfig (disk p)) as [|e|[|config]] eqn:Hpc.
  - unfold deployCommand. by rewrite opening, Hpc.
  - by apply Hescape.
  - by apply Hescape.
  - destruct (Config.serviceName config) as [configured| | |shown isTruthy] eqn:Hname;
      cbn [isString]; [|apply Hescape; cbn; by rewrite Hname..].
    destruct (deployCommand_run options config configured p Hpc Hname)
      as (made & out' & -> & _).
    cbn [fst snd disk]. split; [done|]. split.
    + destruct (pipelineSucceeds L W options config && writable (disk p)); [done|].
      by apply currentHistory_disk.
    + by intros ->.
Qed.

(** X17. The calls deployCommand makes are an initial part of one fixed
    sequence: the branch query when no branch is given, the two probes,
    the registry login, the build, the tag, the two pushes, the deployment
    and the description, in this order; all of it when the pipeline goes
    through.  So nothing is pushed before it is built and nothing is
    deployed before it is pushed.  (On an object without a string
    serviceName no call is made.) *)
Theorem deployCommand_calls (options : DeployOptions) (config : Config.t)
    (p : Proc) :
  projectConfig (disk p) = Stored (Properties config) ->
  exists made,
    calls (deployCommand L W options p).2 = calls p ++ made
    /\ made `prefix_of` deployPlan L W options config
    /\ (isString (Config.serviceName config) = true ->
        pipelineSucceeds L W options config = true ->
        made = deployPlan L W options config).
Proof.
  intros Hpc.
  destruct (Config.serviceName config) as [configured| | |shown isTruthy] eqn:Hname.
  - destruct (deployCommand_run options config configured p Hpc Hname)
      as (made & out' & -> & H1 & H2).
    exists made. split; [done|]. split; [done|]. intros _. exact H2.
  - destruct (deployCommand_escape options p) as [error ->];
      [by rewrite Hpc; cbn; rewrite Hname|].
    exists []. rewrite app_nil_r. split; [done|]. split; [apply prefix_nil | done].
  - destruct (deployCommand_escape options p) as [error ->];
      [by rewrite Hpc; cbn; rewrite Hname|].
    exists []. rewrite app_nil_r. split; [done|]. split; [apply prefix_nil | done].
  - destruct (deployCommand_escape options p) as [error ->];
      [by rewrite Hpc; cbn; rewrite Hname|].
    exists []. rewrite app_nil_r. split; [done|]. split; [apply prefix_nil | done].
Qed.

End DeployFacts.

Lemma deployCommand_history_witness :
  (deployCommand asciiLowercasing tagBrokenWorld previewDeploy
     (procWithHistory [sampleDeployment (js "app")])).1 = Normal tt
  /\ currentHistory
       (deployCommand asciiLowercasing tagBrokenWorld previewDeploy
          (procWithHistory [sampleDeployment (js "app")])).2
     = [sampleDeployment (js "app");
        recordOf asciiLowercasing tagBrokenWorld previewDeploy sampleConfig].
Proof.
  destruct (deployCommand_history asciiLowercasing tagBrokenWorld previewDeploy
              (procWithHistory [sampleDeployment (js "app")]))
    as (Hret & Hhistory & _).
  split; [exact Hret | exact Hhistory].
Defined.

(** A configuration without serviceName: the error leaves deployCommand
    and nothing was done. *)
Example deploy_without_serviceName :
  deployCommand asciiLowercasing quietWorld productionDeploy
    (procWithDocument (Properties namelessConfig))
  = (Thrown (newError (js "Cannot read properties of undefined (reading 'toLowerCase')")),
     procWithDocument (Properties namelessConfig)).
Proof. reflexivity. Qed.

(** The same run, spelled out: the tag fails, the preview is deployed and
    recorded after the record the history held. *)
Example deploy_with_tag_broken :
  names (currentHistory
           (deployCommand asciiLowercasing tagBrokenWorld previewDeploy
              (procWithHistory [sampleDeployment (js "app")])).2)
  = [js "app"; js "app-feature-login-a1b2c3d4"]
  /\ console
       (deployCommand asciiLowercasing tagBrokenWorld previewDeploy
          (procWithHistory [sampleDeployment (js "app")])).2
     = [Error (js "Failed to tag image: Command failed");
        Log (js "Deployment successful!")].
Proof. by vm_compute. Qed.

Lemma deployCommand_calls_witness :
  exists made,
    calls (deployCommand asciiLowercasing quietWorld productionDeploy
             (procWithHistory [])).2
    = calls (procWithHistory []) ++ made
    /\ made `prefix_of`
         deployPlan asciiLowercasing quietWorld productionDeploy sampleConfig
    /\ made = deployPlan asciiLowercasing quietWorld productionDeploy sampleConfig.
Proof.
  destruct (deployCommand_calls asciiLowercasing quietWorld productionDeploy
              sampleConfig (procWithHistory []) eq_refl)
    as (made & Hcalls & Hprefix & Hall).
  exists made. split; [exact Hcalls|]. split; [exact Hprefix|].
  apply Hall; reflexivity.
Defined.

Example deploy_with_build_broken_calls :
  calls (deployCommand asciiLowercasing buildBrokenWorld productionDeploy
           (procWithHistory [])).2
  = take 5 (deployPlan asciiLowercasing buildBrokenWorld productionDeploy sampleConfig).
Proof. by vm_compute. Qed.

(** ** The handlers on a project that is not initialized *)

(** X18. Without gcp-deploy.json each of the four handlers prints that the
    project is not initialized and returns: no call leaves the process
    and the disk is as it was. *)
Theorem uninitialized_project (L : Lowercasing) (W : World) (i : Invocation)
    (p : Proc) :
  projectConfig (disk p) = Absent ->
  handler L W i p
  = (Normal tt,
     {| disk := disk p; calls := calls p;
        console := console p ++ [Log (js "Error: Project not initialized.")] |}).
Proof.
  intros H.
  destruct i as [options | options | options | deploymentName options];
    cbn [handler];
    [unfold deployCommand | unfold listCommand | unfold logsCommand | ];
    rewrite ?opening, ?removeCommand_opening, H; reflexivity.
Qed.

Lemma uninitialized_project_witness :
  handler asciiLowercasing quietWorld (Remove (js "app") askFirst) uninitializedProc
  = (Normal tt,
     {| disk := disk uninitializedProc; calls := calls uninitializedProc;
        console := console uninitializedProc
                   ++ [Log (js "Error: Project not initialized.")] |}).
Proof.
  apply (uninitialized_project asciiLowercasing quietWorld
           (Remove (js "app") askFirst) uninitializedProc).
  reflexivity.
Defined.

(** ** removeCommand: the calls and the outcome *)

Section RemoveFacts.
Context (W : World).





End RemoveFacts.


Example remove_declined :
  removeCommand decliningWorld (js "app") askFirst
    (procWithHistory [sampleDeployment (js "app")])
  = (Normal tt,
     {| disk := disk (procWithHistory [sampleDeployment (js "app")]);
        calls := [Prompt];
        console := [Log (js "Warning: This is the production deployment!");
                    Log (js "Deletion cancelled.")] |}).
Proof. by vm_compute. Qed.


Example remove_absent_keeps_others :
  names (currentHistory
           (removeCommand absentServiceWorld (js "app-old") askFirst
              (procWithHistory
                 [sampleDeployment (js "app"); sampleDeployment (js "app-old")])).2)
  = [js "app"].
Proof. by vm_compute. Qed.

(** ** listCommand and logsCommand read, and never write *)


Lemma readDeploymentHistory_result (p : Proc) :
  exists out',
    readDeploymentHistory p
    = (Normal {| deployments := currentHistory p |},
       {| disk := disk p; calls := calls p; console := out' |}).
Proof.
  destruct p as [[g pc h w] cs out]. destruct h as [|e|[ds]]; eexists; reflexivity.
Qed.

Section ListFacts.
Context (W : World).

Ltac run_list :=
  cbv beta iota delta [bind tryCatch ret say record throw rethrow execOrThrow exec
    requestFailed];
  cbn [fst snd disk calls console].

Lemma listCommand_run (options : ListOptions) (config : Config.t) (p : Proc) :
  projectConfig (disk p) = Stored (Properties config) ->
  exists c out',
    listCommand W options p
    = (c, {| disk := disk p;
             calls :=
               calls p
               ++ [Exec (GcloudRunServicesList (render (Config.region config))
                           (render (Config.projectId config)))];
             console := out' |}).
Proof.
  intros Hpc. unfold listCommand. rewrite opening, Hpc, bind_properties. run_list.
  destruct (execSync W _) as [out|error]; run_list; [|by eexists _, _].
  destruct (servicesOfJson W out) as [error|services]; run_list; [by eexists _, _|].
  match goal with
  | |- context [readDeploymentHistory ?P] =>
      destruct (readDeploymentHistory_result P) as [out' ->]
  end.
  destruct (List.filter _ services); run_list; by eexists _, _.
Qed.

(** X21. listCommand leaves the disk as it was, and on an initialized project
    its one call is the listing of the services of the configured region
    and project, whatever the answer.  (When gcp-deploy.json holds
    [null], reading the region throws inside the [try] and no call is
    made.) *)
Theorem listCommand_reads_only (options : ListOptions) (p : Proc) :
  disk (listCommand W options p).2 = disk p
  /\ calls (listCommand W options p).2
     = match projectConfig (disk p) with
       | Stored (Properties config) =>
           calls p
           ++ [Exec (GcloudRunServicesList (render (Config.region config))
                       (render (Config.projectId config)))]
       | _ => calls p
       end.
Proof.
  destruct (projectConfig (disk p)) as [|e|[|config]] eqn:Hpc.
  - unfold listCommand. by rewrite opening, Hpc.
  - unfold listCommand. by rewrite opening, Hpc.
  - unfold listCommand. by rewrite opening, Hpc.
  - by destruct (listCommand_run options config p Hpc) as (c & out' & ->).
Qed.


End ListFacts.

Lemma getDeployment_run (serviceName : jsstring) (p : Proc) :
  getDeployment serviceName p
  = (Normal (find (fun d => bool_decide (Deployment.serviceName d = serviceName))
               (currentHistory p)),
     {| disk := disk p; calls := calls p;
        console := console (readDeploymentHistory p).2 |}).
Proof. destruct p as [[g pc h w] cs out]. by destruct h as [|e|[ds]]. Qed.

(** The callback of logsCommand run over a list of entries. *)
Lemma callback_run (entries : list LogEntry) (q : Proc) :
  foldr (fun e k => say (Log (entryText e)) ;; k) (ret tt) entries q
  = (Normal tt,
     {| disk := disk q; calls := calls q;
        console := console q ++ map (fun e => Log (entryText e)) entries |}).
Proof.
  revert q. induction entries as [|e entries IH]; intros q.
  - destruct q. cbn. by rewrite app_nil_r.
  - cbn [foldr map]. unfold bind at 1, say at 1. rewrite IH.
    cbn [disk calls console]. by rewrite <- app_assoc.
Qed.

Lemma bind_ret {A B} (a : A) (k : A -> M B) : (let* x := ret a in k x) = k a.
Proof. reflexivity. Qed.

Lemma getDeploymentOf_run (serviceName : JsValue) (p : Proc) :
  getDeploymentOf serviceName p
  = (Normal (match serviceName with
             | Str name =>
                 find (fun d => bool_decide (Deployment.serviceName d = name))
                      (currentHistory p)
             | _ => None
             end),
     {| disk := disk p; calls := calls p;
        console := console (readDeploymentHistory p).2 |}).
Proof.
  destruct serviceName; [apply getDeployment_run|..];
    destruct p as [[g pc h w] cs out]; by destruct h as [|e|[ds]].
Qed.

Lemma recorded_find (serviceName : JsValue) (p : Proc) :
  recorded serviceName p
  = is_Some_bool
      (match serviceName with
       | Str name =>
           find (fun d => bool_decide (Deployment.serviceName d = name))
                (currentHistory p)
       | _ => None
       end).
Proof. by destruct serviceName. Qed.

Section LogsFacts.
Context (W : World).

Lemma logsCommand_run (options : LogsOptions) (config : Config.t) (p : Proc) :
  projectConfig (disk p) = Stored (Properties config) ->
  logsCommand W options p
  = if negb (recorded (logTarget options config) p || isNamed options)
    then (Normal tt,
          {| disk := disk p; calls := calls p;
             console := console (readDeploymentHistory p).2
                        ++ [Log (js "No production deployment found.")] |})
    else if follow options
    then (Pending,
          {| disk := disk p; calls := calls p;
             console := console (readDeploymentHistory p).2 |})
    else (Normal tt,
          {| disk := disk p;
             calls :=
               calls p
               ++ [LogGetEntries (render (logTarget options config)) false];
             console :=
               console (readDeploymentHistory p).2
               ++ match apiGetEntries W (render (logTarget options config)) with
                  | inr entries =>
                      map (fun e => Log (entryText e)) (reverse entries)
                      ++ [Log (js "Logs fetched")]
                  | inl error =>
                      [Error (js "Error: Failed to stream logs: " ++ apiMessage error)]
                  end |}).
Proof.
  intros Hpc. unfold logsCommand. rewrite opening, Hpc.
  rewrite recorded_find. unfold logTarget, isNamed.
  destruct (deployment options) as [v|]; [destruct (truthy v)|];
    rewrite ?bind_properties, bind_ret;
    unfold bind at 1; rewrite getDeploymentOf_run;
    match goal with
    | |- context [is_Some_bool ?o] => destruct (is_Some_bool o)
    end;
    cbn [negb andb orb]; try reflexivity.
  all: rewrite bind_properties;
    destruct (follow options); [reflexivity|];
    unfold streamLogs, tryCatch, bind at 1, bind at 1, bind at 1, record;
    cbn [fst snd disk calls console];
    (destruct (apiGetEntries W _) as [error|entries];
     [reflexivity
     | rewrite callback_run; cbv beta iota delta [say requestFailed];
       cbn [fst snd disk calls console]; by rewrite <- app_assoc]).
Qed.


(** X24. A one-time fetch prints every entry of the answer once, in the
    reverse of the order of the answer, that is oldest first, and then
    reports that the logs are fetched. *)
Theorem logsCommand_prints_oldest_first (options : LogsOptions) (config : Config.t)
    (p : Proc) (entries : list LogEntry) :
  projectConfig (disk p) = Stored (Properties config) ->
  recorded (logTarget options config) p || isNamed options = true ->
  follow options = false ->
  apiGetEntries W (render (logTarget options config)) = inr entries ->
  console (logsCommand W options p).2
  = console (readDeploymentHistory p).2
    ++ map (fun e => Log (entryText e)) (reverse entries)
    ++ [Log (js "Logs fetched")].
Proof.
  intros Hpc Hgo Hfollow Hentries.
  by rewrite (logsCommand_run options config p Hpc), Hgo, Hfollow, Hentries.
Qed.

End LogsFacts.



(** Without a record of the production service and without
    [--deployment], nothing is asked of Cloud Logging. *)
Example logs_without_deployment :
  logsCommand loggingWorld onceProduction (procWithHistory [])
  = (Normal tt,
     {| disk := disk (procWithHistory []); calls := [];
        console := [Log (js "No production deployment found.")] |}).
Proof. by vm_compute. Qed.

Lemma logsCommand_prints_oldest_first_witness :
  console (logsCommand loggingWorld onceProduction
             (procWithHistory [sampleDeployment (js "app")])).2
  = [Log (entryText logEntry1); Log (entryText logEntry2); Log (js "Logs fetched")].
Proof.
  apply (logsCommand_prints_oldest_first loggingWorld onceProduction sampleConfig
           (procWithHistory [sampleDeployment (js "app")]) [logEntry2; logEntry1]);
    reflexivity.
Defined.

Lemma firing_delivers_witness :
  logEntry2
  ∈ delivered (firings [Some [staleEntry; logEntry1; logEntry2]; None]
                 (start 1700000000000)).
Proof.
  apply (firing_delivers [staleEntry; logEntry1; logEntry2] [None]
           (start 1700000000000) logEntry2).
  - repeat constructor.
  - by vm_compute.
Defined.

(** An entry older than the start of the run is not shown. *)
Example stale_entry_not_delivered :
  delivered (firings [Some [staleEntry; logEntry1; logEntry2]; None]
               (start 1700000000000))
  = [logEntry1; logEntry2].
Proof. reflexivity. Qed.

(** ** The directory of the global configuration *)

(** X25. readGlobalConfig and writeGlobalConfig create the directory of the
    global configuration before anything else, outside their [try]: when
    the directory is missing and cannot be created the error leaves both
    functions as it is, nothing is printed and the disk is unchanged;
    when it exists neither function throws; and whenever one of them
    returns, the directory exists. *)
Theorem global_config_directory (g : GlobalConfig) (p : Proc) :
  (forall failure,
     globalConfig (disk p) = None -> writeFailure (disk p) = Some failure ->
     readGlobalConfig p = (Thrown (newError failure), p)
     /\ writeGlobalConfig g p = (Thrown (newError failure), p))
  /\ (globalConfig (disk p) <> None ->
      forall e, (readGlobalConfig p).1 <> Thrown e
                /\ (writeGlobalConfig g p).1 <> Thrown e)
  /\ (forall a, (readGlobalConfig p).1 = Normal a ->
                globalConfig (disk (readGlobalConfig p).2) <> None)
  /\ (forall b, (writeGlobalConfig g p).1 = Normal b ->
                globalConfig (disk (writeGlobalConfig g p).2) <> None).
Proof.
  destruct p as [[gc c h w] cs out].
  unfold readGlobalConfig, writeGlobalConfig, ensureGlobalConfigDir,
    bind, getDisk, putDisk, ret, say, throw, setGlobalConfig.
  cbn [disk calls console globalConfig writeFailure projectConfig history fst snd].
  split; [|split; [|split]].
  - by intros failure -> ->.
  - intros Hgc e. destruct gc as [[|se|stored]|]; [| | |done];
      by destruct w.
  - intros a. destruct gc as [[|se|stored]|]; [done..|]. by destruct w.
  - intros b. destruct gc as [[|se|stored]|]; [by destruct w..|]. by destruct w.
Qed.

Lemma global_config_directory_witness :
  readGlobalConfig readOnlyProc
  = (Thrown (newError (js "EROFS: read-only file system")), readOnlyProc)
  /\ writeGlobalConfig {| lastUsedProject := None |} readOnlyProc
     = (Thrown (newError (js "EROFS: read-only file system")), readOnlyProc).
Proof.
  apply (global_config_directory {| lastUsedProject := None |} readOnlyProc);
    reflexivity.
Defined.
